(** * SniperX-V3: the token watch engine of [Monitoring.py] and [process_lock.py]

    A shallow embedding of the decision loop
    ([trade_logic_and_price_display_loop]), the queue reader and writer
    ([load_token_from_csv], [remove_token_from_csv]), the result handling
    of [main] and the lock release paths, followed by the properties the
    specification states about them.

    Numbers are Python floats, that is IEEE 754 binary64 values: they are
    embedded as Rocq's primitive floats, whose operations round the same
    way.  Python's [a > b] and [a >= b] are [b <? a] and [b <=? a]. *)

From Stdlib Require Import Floats ZArith NArith Lia Ascii DecimalString DecimalPos DecimalN.
From stdpp Require Import base option list strings gmap.

Set Warnings "-inexact-float".
Local Open Scope float_scope.

(** ** Python's float operations *)

Definition gtb (a b : float) : bool := b <? a.
Definition geb (a b : float) : bool := b <=? a.

(** [bool(x)] for a float: every value but the two zeros is true. *)
Definition float_truthy (x : float) : bool := negb (x =? 0).

(** ** Configuration (module constants of Monitoring.py) *)

Record config := {
  TAKE_PROFIT_THRESHOLD_PERCENT : float;
  STOP_LOSS_THRESHOLD_PERCENT : float;
  STAGNATION_PRICE_THRESHOLD_PERCENT : float;
  NO_BUY_SIGNAL_TIMEOUT_SECONDS : float;
  STAGNATION_TIMEOUT_SECONDS : float;
  BUY_SIGNAL_PRICE_INCREASE_PERCENT : float;
  DEXSCREENER_PRICE_UPDATE_INTERVAL_SECONDS : float
}.

(** The values the module assigns. *)
Definition standard_config : config := {|
  TAKE_PROFIT_THRESHOLD_PERCENT := 1.10;
  STOP_LOSS_THRESHOLD_PERCENT := 0.95;
  STAGNATION_PRICE_THRESHOLD_PERCENT := 0.80;
  NO_BUY_SIGNAL_TIMEOUT_SECONDS := 180;
  STAGNATION_TIMEOUT_SECONDS := 180;
  BUY_SIGNAL_PRICE_INCREASE_PERCENT := 1.01;
  DEXSCREENER_PRICE_UPDATE_INTERVAL_SECONDS := 1
|}.

Definition PRICE_IMPACT_THRESHOLD_MONITOR : float := 65.0.

(** ** Global state *)

(** One entry of [g_latest_trade_data], as [listen_for_trades] builds it. *)
Record trade := {
  amount : float;
  solAmount : float;
  side : string;
  wallet : string
}.

(** The dictionary [get_dexscreener_data] returns. *)
Record dex_data := {
  price : float;
  buy_volume : float;
  sell_volume : float;
  buys : Z;
  sells : Z
}.

Inductive trade_status := monitoring | bought.

(** The module globals the decision loop reads and writes.
    [g_token_start_time] is a float here: [main] calls
    [reset_token_specific_state] before it creates the task. *)
Record globals := {
  g_last_known_sol_price : float;
  g_latest_trade_data : list trade;
  g_last_dex_price_fetch_time : float;
  g_current_mint_address : option string;
  g_token_name : option string;
  g_baseline_price_usd : option float;
  g_trade_status : trade_status;
  g_buy_price_usd : option float;
  g_token_start_time : float;
  g_buy_signal_detected : bool;
  g_stagnation_timer_start : option float
}.

Definition set_last_dex_price_fetch_time (t : float) (g : globals) : globals :=
  {| g_last_known_sol_price := g_last_known_sol_price g;
     g_latest_trade_data := g_latest_trade_data g;
     g_last_dex_price_fetch_time := t;
     g_current_mint_address := g_current_mint_address g;
     g_token_name := g_token_name g;
     g_baseline_price_usd := g_baseline_price_usd g;
     g_trade_status := g_trade_status g;
     g_buy_price_usd := g_buy_price_usd g;
     g_token_start_time := g_token_start_time g;
     g_buy_signal_detected := g_buy_signal_detected g;
     g_stagnation_timer_start := g_stagnation_timer_start g |}.

Definition set_baseline_price_usd (b : option float) (g : globals) : globals :=
  {| g_last_known_sol_price := g_last_known_sol_price g;
     g_latest_trade_data := g_latest_trade_data g;
     g_last_dex_price_fetch_time := g_last_dex_price_fetch_time g;
     g_current_mint_address := g_current_mint_address g;
     g_token_name := g_token_name g;
     g_baseline_price_usd := b;
     g_trade_status := g_trade_status g;
     g_buy_price_usd := g_buy_price_usd g;
     g_token_start_time := g_token_start_time g;
     g_buy_signal_detected := g_buy_signal_detected g;
     g_stagnation_timer_start := g_stagnation_timer_start g |}.

(** The three assignments of the buy-signal branch. *)
Definition set_buy_signal (p : option float) (g : globals) : globals :=
  {| g_last_known_sol_price := g_last_known_sol_price g;
     g_latest_trade_data := g_latest_trade_data g;
     g_last_dex_price_fetch_time := g_last_dex_price_fetch_time g;
     g_current_mint_address := g_current_mint_address g;
     g_token_name := g_token_name g;
     g_baseline_price_usd := g_baseline_price_usd g;
     g_trade_status := bought;
     g_buy_price_usd := p;
     g_token_start_time := g_token_start_time g;
     g_buy_signal_detected := true;
     g_stagnation_timer_start := g_stagnation_timer_start g |}.

Definition set_stagnation_timer_start (t : option float) (g : globals) : globals :=
  {| g_last_known_sol_price := g_last_known_sol_price g;
     g_latest_trade_data := g_latest_trade_data g;
     g_last_dex_price_fetch_time := g_last_dex_price_fetch_time g;
     g_current_mint_address := g_current_mint_address g;
     g_token_name := g_token_name g;
     g_baseline_price_usd := g_baseline_price_usd g;
     g_trade_status := g_trade_status g;
     g_buy_price_usd := g_buy_price_usd g;
     g_token_start_time := g_token_start_time g;
     g_buy_signal_detected := g_buy_signal_detected g;
     g_stagnation_timer_start := t |}.

(** What the other tasks write while the decision loop sleeps:
    [listen_for_trades] appends to the bounded deque (maxlen 100, the
    oldest entry leaves first) and [periodic_sol_price_updater] replaces
    the SOL/USD rate. *)
Definition deque_append (x : trade) (d : list trade) : list trade :=
  if (length d <? 100)%nat then d ++ [x] else tail d ++ [x].

Definition set_feed (trades : list trade) (sol : option float) (g : globals) : globals :=
  {| g_last_known_sol_price := default (g_last_known_sol_price g) sol;
     g_latest_trade_data := foldl (fun d x => deque_append x d) (g_latest_trade_data g) trades;
     g_last_dex_price_fetch_time := g_last_dex_price_fetch_time g;
     g_current_mint_address := g_current_mint_address g;
     g_token_name := g_token_name g;
     g_baseline_price_usd := g_baseline_price_usd g;
     g_trade_status := g_trade_status g;
     g_buy_price_usd := g_buy_price_usd g;
     g_token_start_time := g_token_start_time g;
     g_buy_signal_detected := g_buy_signal_detected g;
     g_stagnation_timer_start := g_stagnation_timer_start g |}.

(** [reset_token_specific_state], with [now] the value of [time.time()]. *)
Definition reset_token_specific_state (now : float) (g : globals) : globals :=
  {| g_last_known_sol_price := g_last_known_sol_price g;
     g_latest_trade_data := [];
     g_last_dex_price_fetch_time := g_last_dex_price_fetch_time g;
     g_current_mint_address := g_current_mint_address g;
     g_token_name := g_token_name g;
     g_baseline_price_usd := None;
     g_trade_status := monitoring;
     g_buy_price_usd := None;
     g_token_start_time := now;
     g_buy_signal_detected := false;
     g_stagnation_timer_start := None |}.

(** ** Exceptions of the decision loop *)

(** The [reason] argument of [TokenProcessingComplete]; [reason_text]
    gives the string the source passes. *)
Inductive lifecycle_reason :=
  | NoBuySignalTimeout
  | TakeProfit
  | StopLoss
  | Stagnation
  | StagnationNoData.

Definition reason_text (r : lifecycle_reason) : string :=
  match r with
  | NoBuySignalTimeout => "No buy signal timeout"
  | TakeProfit => "Take profit"
  | StopLoss => "Stop loss"
  | Stagnation => "Stagnation timeout"
  | StagnationNoData => "Stagnation timeout - no price data"
  end.

(** The arguments of one [raise TokenProcessingComplete(...)] statement. *)
Record completion := {
  mint_address : string;
  reason : lifecycle_reason;
  buy_price : option float;
  sell_price : option float
}.

Inductive exn :=
  | TokenProcessingComplete (c : completion)
  | ZeroDivisionError.

Inductive result (A : Type) :=
  | Normal (a : A)
  | Raised (e : exn).
Arguments Normal {A} a.
Arguments Raised {A} e.

(** ** A state and exception monad over the globals *)

Definition M (A : Type) : Type := globals -> result A * globals.

#[global] Instance M_ret : MRet M := fun A a g => (Normal a, g).
#[global] Instance M_bind : MBind M := fun A B f m g =>
  match m g with
  | (Normal a, g') => f a g'
  | (Raised e, g') => (Raised e, g')
  end.

Definition get : M globals := fun g => (Normal g, g).
Definition modify (f : globals -> globals) : M unit := fun g => (Normal tt, f g).
Definition raise {A} (e : exn) : M A := fun g => (Raised e, g).

(** [a / b] on floats raises when the divisor is zero. *)
Definition truediv (a b : float) : M float :=
  if b =? 0 then raise ZeroDivisionError else mret (a / b).

(** ** The body of [trade_logic_and_price_display_loop] *)

(** Price from the most recent trade, if any. *)
Definition price_from_recent_trade : M (option float) :=
  g ← get;
  match last (g_latest_trade_data g) with
  | Some recent_trade =>
      let token_amount := amount recent_trade in
      let sol_amount := solAmount recent_trade in
      if gtb token_amount 0 then
        sol_price_per_token ← truediv sol_amount token_amount;
        mret (Some (sol_price_per_token * g_last_known_sol_price g))
      else mret None
  | None => mret None
  end.

(** The price of the answer of Dexscreener:
    [dex_data and dex_data.get("price")], then [float(dex_data["price"])]. *)
Definition dex_price (d : option dex_data) : option float :=
  match d with
  | Some d => if float_truthy (price d) then Some (price d) else None
  | None => None
  end.

(** Fallback: Dexscreener is asked when there is still no price and the
    last request is old enough; [dex] is what [get_dexscreener_data]
    answers when it is called. *)
Definition price_determination (cfg : config) (current_time : float)
    (dex : option dex_data) : M (option float) :=
  usd_price_per_token ← price_from_recent_trade;
  g ← get;
  if bool_decide (usd_price_per_token = None)
     && gtb (current_time - g_last_dex_price_fetch_time g)
            (DEXSCREENER_PRICE_UPDATE_INTERVAL_SECONDS cfg)
  then
    modify (set_last_dex_price_fetch_time current_time);;
    mret (dex_price dex)
  else mret usd_price_per_token.

(** Initial baseline price setting. *)
Definition set_initial_baseline (usd_price_per_token : option float) : M unit :=
  g ← get;
  match usd_price_per_token, g_baseline_price_usd g with
  | Some p, None => modify (set_baseline_price_usd (Some p))
  | _, _ => mret tt
  end.

(** [usd_price_per_token is not None and usd_price_per_token > bound]. *)
Definition price_above (usd_price_per_token : option float) (bound : float) : bool :=
  match usd_price_per_token with
  | Some p => gtb p bound
  | None => false
  end.

(** 1. Buy signal, else the no-buy-signal timeout. *)
Definition no_buy_signal_check (cfg : config) (mint : string) (current_time : float)
    (usd_price_per_token : option float) (baseline : float) : M unit :=
  g ← get;
  if negb (g_buy_signal_detected g) then
    if price_above usd_price_per_token
         (baseline * BUY_SIGNAL_PRICE_INCREASE_PERCENT cfg)
    then modify (set_buy_signal usd_price_per_token)
    else if gtb (current_time - g_token_start_time g)
                (NO_BUY_SIGNAL_TIMEOUT_SECONDS cfg)
    then raise (TokenProcessingComplete
                  {| mint_address := mint; reason := NoBuySignalTimeout;
                     buy_price := None; sell_price := usd_price_per_token |})
    else mret tt
  else mret tt.

(** 2. Take profit, then stop loss, once a buy signal was detected. *)
Definition take_profit_stop_loss_check (cfg : config) (mint : string)
    (usd_price_per_token : option float) : M unit :=
  g ← get;
  match g_buy_signal_detected g, g_buy_price_usd g, usd_price_per_token with
  | true, Some buy, Some p =>
      if geb p (buy * TAKE_PROFIT_THRESHOLD_PERCENT cfg) then
        raise (TokenProcessingComplete
                 {| mint_address := mint; reason := TakeProfit;
                    buy_price := Some buy; sell_price := Some p |})
      else if p <=? buy * STOP_LOSS_THRESHOLD_PERCENT cfg then
        raise (TokenProcessingComplete
                 {| mint_address := mint; reason := StopLoss;
                    buy_price := Some buy; sell_price := Some p |})
      else mret tt
  | _, _, _ => mret tt
  end.

(** 3. Stagnation, whether a buy signal occurred or not. *)
Definition stagnation_check (cfg : config) (mint : string) (current_time : float)
    (usd_price_per_token : option float) (baseline : float) : M unit :=
  g ← get;
  match usd_price_per_token with
  | Some p =>
      if p <? baseline * STAGNATION_PRICE_THRESHOLD_PERCENT cfg then
        match g_stagnation_timer_start g with
        | None => modify (set_stagnation_timer_start (Some current_time))
        | Some started =>
            if gtb (current_time - started) (STAGNATION_TIMEOUT_SECONDS cfg) then
              raise (TokenProcessingComplete
                       {| mint_address := mint; reason := Stagnation;
                          buy_price := None; sell_price := Some p |})
            else mret tt
        end
      else
        match g_stagnation_timer_start g with
        | Some _ => modify (set_stagnation_timer_start None)
        | None => mret tt
        end
  | None =>
      if bool_decide (g_stagnation_timer_start g = None)
         && gtb (current_time - g_token_start_time g)
                (STAGNATION_TIMEOUT_SECONDS cfg)
      then raise (TokenProcessingComplete
                    {| mint_address := mint; reason := StagnationNoData;
                       buy_price := None; sell_price := None |})
      else mret tt
  end.

(** The checks that run once the baseline is set, in source order. *)
Definition token_lifecycle_checks (cfg : config) (mint : string) (current_time : float)
    (usd_price_per_token : option float) : M unit :=
  g ← get;
  match g_baseline_price_usd g with
  | Some baseline =>
      no_buy_signal_check cfg mint current_time usd_price_per_token baseline;;
      take_profit_stop_loss_check cfg mint usd_price_per_token;;
      stagnation_check cfg mint current_time usd_price_per_token baseline
  | None => mret tt
  end.

(** One evaluation with the tick's price already determined:
    baseline setting, then the lifecycle checks. *)
Definition evaluate (cfg : config) (mint : string) (current_time : float)
    (usd_price_per_token : option float) : M unit :=
  set_initial_baseline usd_price_per_token;;
  token_lifecycle_checks cfg mint current_time usd_price_per_token.

(** What one pass of the [while True] body meets from outside:
    the clock, what the listener and the rate updater wrote during the
    preceding sleep, and the answer Dexscreener would give. *)
Record tick_input := {
  current_time : float;
  new_trades : list trade;
  new_sol_price : option float;
  dex_answer : option dex_data
}.

Inductive flow := Continue | Return.

(** One pass of the loop body of the task started for [mint]. *)
Definition trade_logic_iteration (cfg : config) (mint : string) (i : tick_input) : M flow :=
  g ← get;
  if bool_decide (g_current_mint_address g ≠ Some mint) then mret Return
  else
    usd_price_per_token ← price_determination cfg (current_time i) (dex_answer i);
    evaluate cfg mint (current_time i) usd_price_per_token;;
    mret Continue.

(** The loop, over the inputs of its successive passes; it runs until a
    pass returns or raises. *)
Fixpoint trade_logic_and_price_display_loop (cfg : config) (mint : string)
    (inputs : list tick_input) : M flow :=
  match inputs with
  | [] => mret Continue
  | i :: rest =>
      modify (set_feed (new_trades i) (new_sol_price i));;
      f ← trade_logic_iteration cfg mint i;
      match f with
      | Continue => trade_logic_and_price_display_loop cfg mint rest
      | Return => mret Return
      end
  end.

(** Successive evaluations of one epoch on given prices: the state after
    the last one that ran (an evaluation that raises ends the epoch). *)
Fixpoint evaluations (cfg : config) (mint : string)
    (ticks : list (float * option float)) (g : globals) : globals :=
  match ticks with
  | [] => g
  | (now, usd) :: rest =>
      match evaluate cfg mint now usd g with
      | (Normal _, g') => evaluations cfg mint rest g'
      | (Raised _, g') => g'
      end
  end.

(** States of a running epoch: from a reset, through feed updates and
    passes of the loop body that neither return nor raise. *)
Inductive epoch_state (cfg : config) (mint : string) : globals -> Prop :=
  | epoch_reset now g :
      epoch_state cfg mint (reset_token_specific_state now g)
  | epoch_feed trades sol g :
      epoch_state cfg mint g ->
      epoch_state cfg mint (set_feed trades sol g)
  | epoch_evaluate now usd g g' :
      epoch_state cfg mint g ->
      evaluate cfg mint now usd g = (Normal tt, g') ->
      epoch_state cfg mint g'
  | epoch_iteration i g g' :
      epoch_state cfg mint g ->
      trade_logic_iteration cfg mint i g = (Normal Continue, g') ->
      epoch_state cfg mint g'.

(** ** Strings *)

(** Strings are sequences of code points below 256; [str.strip()] removes
    the characters for which [str.isspace] holds. *)
Definition py_isspace (a : ascii) : bool :=
  let n := N_of_ascii a in
  ((9 <=? n) && (n <=? 13) || (28 <=? n) && (n <=? 32)
   || (n =? 133) || (n =? 160))%N.

Fixpoint lstrip (s : string) : string :=
  match s with
  | String a rest => if py_isspace a then lstrip rest else s
  | EmptyString => EmptyString
  end.

Definition strip (s : string) : string :=
  String.rev (lstrip (String.rev (lstrip s))).

(** [f.readline()] in text mode: the characters up to the first line end
    (a line feed or a carriage return), which is read as a line feed. *)
Fixpoint readline (s : string) : string :=
  match s with
  | String a rest =>
      if bool_decide (a = "010"%char) || bool_decide (a = "013"%char)
      then String "010"%char EmptyString
      else String a (readline rest)
  | EmptyString => EmptyString
  end.

(** [str(os.getpid())]. *)
Definition str_of_pid (pid : N) : string :=
  DecimalString.NilZero.string_of_uint (N.to_uint pid).

(** ** The queue file *)

(** The queue as [csv.reader] yields it: the records of the file in
    order, each a list of fields (a blank line is the empty list), or
    nothing when the file cannot be opened or read. *)
Definition csv_file : Type := option (list (list string)).

(** A row of [csv.DictReader]: the values by field name, [None] (Python's)
    where the record is shorter than the header, and the surplus fields
    under the key [None] where it is longer. *)
Record row_dict := {
  fields : gmap string (option string);
  restkey : option (list string)
}.

(** [dict(zip(fieldnames, row))], then the rest key or the rest values. *)
Definition dict_of_record (fieldnames record : list string) : row_dict :=
  let zipped :=
    foldl (fun d kv => <[kv.1 := Some kv.2]> d) ∅ (zip fieldnames record) in
  let lf := length fieldnames in
  let lr := length record in
  if (lf <? lr)%nat then
    {| fields := zipped; restkey := Some (drop lf record) |}
  else
    {| fields := foldl (fun d key => <[key := None]> d) zipped (drop lr fieldnames);
       restkey := None |}.

(** The rows [csv.DictReader] iterates over: blank records are skipped. *)
Definition dict_rows (fieldnames : list string) (records : list (list string))
    : list row_dict :=
  dict_of_record fieldnames <$> filter (fun r => r ≠ []) records.

(** [row.get(key, default)]; the value can be Python's [None]. *)
Definition row_get (key : string) (dflt : option string) (row : row_dict)
    : option string :=
  default dflt (fields row !! key).

Inductive csv_error :=
  | AttributeError
  | ValueError.

#[global] Instance csv_error_bind : MBind (sum csv_error) := fun A B f m =>
  match m with
  | inl e => inl e
  | inr a => f a
  end.

(** [v.strip()] on a value that may be [None]. *)
Definition value_strip (v : option string) : csv_error + string :=
  match v with
  | Some s => inr (strip s)
  | None => inl AttributeError
  end.

(** One pass of the [for row in reader] loop of [load_token_from_csv]:
    the new value of [(latest_mint_address, latest_token_name)], or the
    exception that leaves the loop.  [py_float] is Python's [float] on
    strings, with [None] for a [ValueError]. *)
Definition load_row (py_float : string -> option float) (row : row_dict)
    (latest : option (string * string)) : csv_error + option (string * string) :=
  mint_address ← value_strip (row_get "Address" (Some "") row);
  price_impact_str ←
    value_strip (row_get "Price_Impact_Cluster_Sell_Percent"
                   (row_get "Price_Impact_Cluster_Sell_Percent_" (Some "") row) row);
  match (if bool_decide (price_impact_str ≠ "") then py_float price_impact_str
         else Some (PRICE_IMPACT_THRESHOLD_MONITOR + 1)) with
  | None => inr latest
  | Some price_impact_val =>
      if bool_decide (mint_address ≠ "")
         && (price_impact_val <? PRICE_IMPACT_THRESHOLD_MONITOR)
      then
        token_name_from_row ← value_strip (row_get "Name" (Some "") row);
        inr (Some (mint_address,
                   if bool_decide (token_name_from_row ≠ "")
                   then token_name_from_row else mint_address))
      else inr latest
  end.

Fixpoint load_rows (py_float : string -> option float) (rows : list row_dict)
    (latest : option (string * string)) : csv_error + option (string * string) :=
  match rows with
  | [] => inr latest
  | row :: rest =>
      latest' ← load_row py_float row latest;
      load_rows py_float rest latest'
  end.

(** [load_token_from_csv]: the address and name of the target, or nothing
    (the source's [(None, None)]).  Every exception is caught. *)
Definition load_token_from_csv (py_float : string -> option float) (file : csv_file)
    : option (string * string) :=
  match file with
  | None => None
  | Some [] => None
  | Some (fieldnames :: records) =>
      if bool_decide (fieldnames = []) then None
      else if bool_decide ("Address" ∉ strip <$> fieldnames) then None
      else
        match load_rows py_float (dict_rows fieldnames records) None with
        | inr latest => latest
        | inl _ => None
        end
  end.

(** The record [csv.DictWriter] writes for a row, or nothing when the
    row has a key outside the field names (a [ValueError]). *)
Definition dict_to_list (fieldnames : list string) (row : row_dict)
    : option (list string) :=
  match restkey row with
  | Some _ => None
  | None => Some ((fun key => default "" (default None (fields row !! key))) <$> fieldnames)
  end.

(** [writer.writerows]: the records written, and whether all rows were. *)
Fixpoint writerows (fieldnames : list string) (rows : list row_dict)
    : list (list string) * bool :=
  match rows with
  | [] => ([], true)
  | row :: rest =>
      match dict_to_list fieldnames row with
      | Some record =>
          let (written, ok) := writerows fieldnames rest in (record :: written, ok)
      | None => ([], false)
      end
  end.

(** The reading loop of [remove_token_from_csv]: the rows to keep and
    whether the address was found. *)
Fixpoint rows_to_keep (mint_address_to_remove : string) (rows : list row_dict)
    : csv_error + (list row_dict * bool) :=
  match rows with
  | [] => inr ([], false)
  | row :: rest =>
      address ← value_strip (row_get "Address" (Some "") row);
      '(keep, found) ← rows_to_keep mint_address_to_remove rest;
      if bool_decide (address = mint_address_to_remove) then inr (keep, true)
      else inr (row :: keep, found)
  end.

(** [remove_token_from_csv]: the file afterwards and the value returned.
    The address is Python's [None] when the caller has none. *)
Definition remove_token_from_csv (mint_address_to_remove : option string)
    (file : csv_file) : csv_file * bool :=
  match mint_address_to_remove, file with
  | None, _ | Some "", _ => (file, false)
  | Some _, None => (file, false)
  | Some _, Some [] => (file, false)
  | Some mint, Some (headers :: records) =>
      if bool_decide (headers = []) then (file, false)
      else if bool_decide ("Address" ∉ headers) then (file, false)
      else
        match rows_to_keep mint (dict_rows headers records) with
        | inl _ => (file, false)
        | inr (_, false) => (file, false)
        | inr (keep, true) =>
            let (written, ok) := writerows headers keep in
            (Some (headers :: written), ok)
        end
  end.

(** The selection as the specification words it: a row is eligible when
    its address (stripped) is not empty and its price impact parses to a
    value below the threshold; the target is the last eligible row, named
    by its name or, when that is empty, by its address. *)
Definition row_address (row : row_dict) : string :=
  strip (default "" (row_get "Address" (Some "") row)).

Definition row_price_impact (row : row_dict) : string :=
  strip (default ""
    (row_get "Price_Impact_Cluster_Sell_Percent"
       (row_get "Price_Impact_Cluster_Sell_Percent_" (Some "") row) row)).

Definition row_name (row : row_dict) : string :=
  strip (default "" (row_get "Name" (Some "") row)).

Definition eligible (py_float : string -> option float) (row : row_dict) : bool :=
  bool_decide (row_address row ≠ "")
  && match py_float (row_price_impact row) with
     | Some v => v <? PRICE_IMPACT_THRESHOLD_MONITOR
     | None => false
     end.

Definition target_of_row (row : row_dict) : string * string :=
  (row_address row,
   if bool_decide (row_name row ≠ "") then row_name row else row_address row).

Definition last_eligible (py_float : string -> option float) (rows : list row_dict)
    : option (string * string) :=
  target_of_row <$> last (filter (fun row => eligible py_float row = true) rows).

(** A row is complete when the fields the loader reads are strings
    (no value is Python's [None]). *)
Definition complete (row : row_dict) : Prop :=
  fields row !! "Address" ≠ Some None
  ∧ fields row !! "Price_Impact_Cluster_Sell_Percent" ≠ Some None
  ∧ fields row !! "Price_Impact_Cluster_Sell_Percent_" ≠ Some None
  ∧ fields row !! "Name" ≠ Some None.

(** A stand-in for [float] on the strings of the examples: the value of a
    string of decimal digits, nothing for any other string. *)
Fixpoint digits_value (s : string) (acc : Z) : option Z :=
  match s with
  | EmptyString => Some acc
  | String a rest =>
      match Ascii.is_nat a with
      | Some d => digits_value rest (10 * acc + Z.of_nat d)%Z
      | None => None
      end
  end.

Definition float_of_digits (s : string) : option float :=
  match s with
  | EmptyString => None
  | _ => (fun z => PrimFloat.of_uint63 (Uint63.of_Z z)) <$> digits_value s 0
  end.

(** ** The lock file *)

(** The lock file is absent or holds a text.  [read_ok] and [remove_ok]
    tell whether reading and removing the file succeed; a failure is an
    [OSError], which both paths catch. *)
Definition lock_file : Type := option string.

Record ProcessLock := { lock_acquired : bool }.

(** [ProcessLock.release], run by the process [pid]. *)
Definition release (pid : N) (read_ok remove_ok : bool) (self : ProcessLock)
    (file : lock_file) : ProcessLock * lock_file :=
  if negb (lock_acquired self) then (self, file)
  else
    ({| lock_acquired := false |},
     match file with
     | Some content =>
         if read_ok then
           if bool_decide (strip (readline content) = str_of_pid pid) then
             if remove_ok then None else file
           else file
         else file
     | None => file
     end).

(** The removal of the lock file by [main], when no token is loaded and on
    exit: only after [open(...).read().strip()] equals [str(os.getpid())]. *)
Definition main_remove_lock (pid : N) (read_ok remove_ok : bool)
    (lock_created_by_this_instance : bool) (file : lock_file) : lock_file :=
  if lock_created_by_this_instance then
    match file with
    | Some content =>
        let current_pid_in_lock := if read_ok then strip content else "" in
        if bool_decide (current_pid_in_lock = str_of_pid pid) then
          if remove_ok then None else file
        else file
    | None => file
    end
  else file.

(** ** Task results and their handling in [main] *)

(** What [asyncio.gather(..., return_exceptions=True)] can hold for a
    task: its return value, or the exception that ended it. *)
Inductive task_result :=
  | Returned
  | IsTokenProcessingComplete (c : completion)
  | IsRestartRequired
  | IsCancelledError
  | IsSystemExit (code : Z)
  | IsException (name : string).

Inductive restart :=
  | Exits
  | Returns (b : bool).

(** [restart_sniperx_v2]: with the script present it starts the process
    and calls [sys.exit(0)], which [except Exception] does not catch; a
    failure to start it, or no script, gives [False]. *)
Definition restart_sniperx_v2 (script_exists popen_ok : bool) : restart :=
  if script_exists then
    if popen_ok then Exits else Returns false
  else Returns false.

(** The environment of [TokenProcessingComplete.__init__]. *)
Record host := {
  log_ok : bool;
  script_exists : bool;
  popen_ok : bool
}.

(** What the statement [raise TokenProcessingComplete(...)] ends the task
    with: the constructor writes the trade log, runs
    [restart_sniperx_v2], and calls [sys.exit(0)] itself when that
    returns false. *)
Definition raise_TokenProcessingComplete (h : host) (c : completion) : task_result :=
  if log_ok h then
    match restart_sniperx_v2 (script_exists h) (popen_ok h) with
    | Exits => IsSystemExit 0
    | Returns true => IsTokenProcessingComplete c
    | Returns false => IsSystemExit 0
    end
  else IsException "OSError".

(** How the decision task ends, from the way its loop ends. *)
Definition trader_task_result (h : host) (r : result flow) : task_result :=
  match r with
  | Normal _ => Returned
  | Raised (TokenProcessingComplete c) => raise_TokenProcessingComplete h c
  | Raised ZeroDivisionError => IsException "ZeroDivisionError"
  end.

Inductive token_processing_outcome :=
  | completed
  | restart_required
  | error.

(** The [for res_idx, result in enumerate(results)] loop of [main]: the
    outcome it sets and the queue file afterwards.  [SystemExit] is no
    [Exception]: no branch takes it.  (A task that ends with [SystemExit]
    also stops the event loop, and [main] is then cancelled while it
    awaits the results; letting the loop run over them is the generous
    reading, and removes no more.) *)
Fixpoint handle_results (results : list task_result)
    (processed_token_mint_address : option string) (queue : csv_file)
    : option token_processing_outcome * csv_file :=
  match results with
  | [] => (None, queue)
  | result :: rest =>
      match result with
      | IsTokenProcessingComplete c =>
          let mint :=
            if bool_decide (mint_address c ≠ "") then Some (mint_address c)
            else processed_token_mint_address in
          (Some completed, (remove_token_from_csv mint queue).1)
      | IsRestartRequired => (Some restart_required, queue)
      | IsCancelledError => handle_results rest processed_token_mint_address queue
      | IsException _ => (Some error, queue)
      | Returned | IsSystemExit _ =>
          handle_results rest processed_token_mint_address queue
      end
  end.

(** The rows of the queue that carry the address. *)
Definition queue_has (mint : string) (queue : csv_file) : Prop :=
  match queue with
  | Some (headers :: records) =>
      ∃ row, row ∈ dict_rows headers records ∧ row_address row = mint
  | _ => False
  end.

(** The evaluations of a run that detect the buy signal: the flag is off
    before and on after. *)
Fixpoint buy_transitions (cfg : config) (mint : string)
    (ticks : list (float * option float)) (g : globals) : nat :=
  match ticks with
  | [] => 0
  | (now, usd) :: rest =>
      let (r, g') := evaluate cfg mint now usd g in
      ((if negb (g_buy_signal_detected g) && g_buy_signal_detected g' then 1 else 0)
       + match r with
         | Normal _ => buy_transitions cfg mint rest g'
         | Raised _ => 0
         end)%nat
  end.

(** An evaluation that is not closed by one of the checks that run before
    the stagnation check. *)
Definition not_closed_earlier (r : result unit) : Prop :=
  ∀ c, r = Raised (TokenProcessingComplete c) →
    reason c ≠ NoBuySignalTimeout ∧ reason c ≠ TakeProfit ∧ reason c ≠ StopLoss.

(** In a state that holds a position, the buy price is a number at which
    neither selling rule applied when it was bought. *)
Definition holding_invariant (cfg : config) (g : globals) : Prop :=
  g_buy_signal_detected g = true →
  ∃ baseline bound buy,
    g_baseline_price_usd g = Some baseline
    ∧ g_buy_price_usd g = Some buy
    ∧ gtb buy bound = true
    ∧ geb buy (buy * TAKE_PROFIT_THRESHOLD_PERCENT cfg) = false
    ∧ (buy <=? buy * STOP_LOSS_THRESHOLD_PERCENT cfg) = false.

(** ** Example states *)

(** The module's initial globals (no start time yet: 0 stands for it). *)
Definition initial_globals : globals := {|
  g_last_known_sol_price := 155.0;
  g_latest_trade_data := [];
  g_last_dex_price_fetch_time := 0.0;
  g_current_mint_address := None;
  g_token_name := None;
  g_baseline_price_usd := None;
  g_trade_status := monitoring;
  g_buy_price_usd := None;
  g_token_start_time := 0;
  g_buy_signal_detected := false;
  g_stagnation_timer_start := None
|}.

(** [main] binds the loaded token and resets the token state. *)
Definition start_monitoring (mint name : string) (now : float) (g : globals) : globals :=
  reset_token_specific_state now
    {| g_last_known_sol_price := g_last_known_sol_price g;
       g_latest_trade_data := g_latest_trade_data g;
       g_last_dex_price_fetch_time := g_last_dex_price_fetch_time g;
       g_current_mint_address := Some mint;
       g_token_name := Some name;
       g_baseline_price_usd := g_baseline_price_usd g;
       g_trade_status := g_trade_status g;
       g_buy_price_usd := g_buy_price_usd g;
       g_token_start_time := g_token_start_time g;
       g_buy_signal_detected := g_buy_signal_detected g;
       g_stagnation_timer_start := g_stagnation_timer_start g |}.

(** An epoch for the token [MINT] that starts at time 1000. *)
Definition example_epoch : globals :=
  start_monitoring "MINT" "Token" 1000 initial_globals.

(** ** Example queues and runs *)

Definition queue_header : list string :=
  ["Address"; "Name"; "Price_Impact_Cluster_Sell_Percent"].

(** Three full rows: the last one is at the threshold, so the target is
    the second, whose name is empty. *)
Definition example_queue : csv_file :=
  Some [queue_header; ["A1"; "first"; "10"]; [" MINT "; ""; "64"]; ["A3"; "third"; "65"]].

(** The second row stops after the address. *)
Definition short_row_queue : csv_file :=
  Some [queue_header; ["A1"; "first"; "10"]; ["A2"]].

Definition dex_quote (p : float) : option dex_data :=
  Some {| price := p; buy_volume := 0; sell_volume := 0; buys := 0; sells := 0 |}.

(** Three passes of the loop with no trades, priced by Dexscreener at
    1.00, 1.02 and 1.15. *)
Definition take_profit_run : list tick_input :=
  [ {| current_time := 1002; new_trades := []; new_sol_price := None;
       dex_answer := dex_quote 1 |};
    {| current_time := 1004; new_trades := []; new_sol_price := None;
       dex_answer := dex_quote 1.02 |};
    {| current_time := 1006; new_trades := []; new_sol_price := None;
       dex_answer := dex_quote 1.15 |} ].

(** A result that is an instance of [TokenProcessingComplete]. *)
Definition is_completion (r : task_result) : Prop :=
  ∃ c, r = IsTokenProcessingComplete c.

(** Thresholds that overlap: take profit from 90 %, stop loss up to 105 %. *)
Definition overlapping_config : config := {|
  TAKE_PROFIT_THRESHOLD_PERCENT := 0.90;
  STOP_LOSS_THRESHOLD_PERCENT := 1.05;
  STAGNATION_PRICE_THRESHOLD_PERCENT := 0.80;
  NO_BUY_SIGNAL_TIMEOUT_SECONDS := 180;
  STAGNATION_TIMEOUT_SECONDS := 180;
  BUY_SIGNAL_PRICE_INCREASE_PERCENT := 1.01;
  DEXSCREENER_PRICE_UPDATE_INTERVAL_SECONDS := 1
|}.

(** A lock file as [ProcessLock.acquire] writes it for process 4242. *)
Definition example_lock_content : string :=
  "4242" +:+ String "010"%char "1700000000.5".

(** ** The other tasks and the rest of the lock *)

(** The first price among the inputs of a run of evaluations. *)
Definition first_price (ticks : list (float * option float)) : option float :=
  head (omap snd ticks).

(** What one source of [periodic_sol_price_updater] yields: no usable
    answer (no JSON, or no dictionary), an answer whose price field makes
    [float] raise, or the price read from it. *)
Inductive quote :=
  | NoAnswer
  | Unreadable
  | Quoted (value : float).

(** [float(...) or None] on the answer; nothing outside stands for the
    exception. *)
Definition quoted_price (q : quote) : option (option float) :=
  match q with
  | NoAnswer => Some None
  | Unreadable => None
  | Quoted v => Some (if float_truthy v then Some v else None)
  end.

(** One pass of [periodic_sol_price_updater]: the new value of
    [g_last_known_sol_price].  The second source is asked only when the
    first gave no price; an exception leaves the value as it is. *)
Definition sol_price_pass (primary secondary : quote) (last_known : float) : float :=
  match quoted_price primary with
  | None => last_known
  | Some first =>
      match (match first with
             | Some p => Some (Some p)
             | None => quoted_price secondary
             end) with
      | None => last_known
      | Some (Some p) =>
          if gtb p 0 then
            if negb (last_known =? p) then p else last_known
          else last_known
      | Some None => last_known
      end
  end.

(** The updater over its successive passes. *)
Definition periodic_sol_price_updater (passes : list (quote * quote))
    (last_known : float) : float :=
  foldl (fun rate pass => sol_price_pass pass.1 pass.2 rate) last_known passes.

(** One wake-up of [periodic_csv_checker] in the task started for
    [monitored]: it returns when the globals moved on, asks for a restart
    when the queue names another target or none, and sleeps again
    otherwise. *)
Inductive checker_step :=
  | CheckerReturns
  | CheckerRestartRequired
  | CheckerSleeps.

Definition periodic_csv_checker_pass (py_float : string -> option float)
    (monitored : option string) (current : option string) (queue : csv_file)
    : checker_step :=
  if bool_decide (current ≠ monitored) then CheckerReturns
  else
    match load_token_from_csv py_float queue with
    | Some (new_target_mint_address, _) =>
        if bool_decide (Some new_target_mint_address ≠ monitored)
        then CheckerRestartRequired else CheckerSleeps
    | None =>
        if bool_decide (monitored ≠ None)
        then CheckerRestartRequired else CheckerSleeps
    end.

(** Results the loop of [main] passes over. *)
Definition passed_over (r : task_result) : bool :=
  match r with
  | Returned | IsCancelledError | IsSystemExit _ => true
  | _ => false
  end.

(** Opening a file for writing and writing a text: the opening can fail,
    the writing can fail and leave something else in the file, or both
    succeed. *)
Inductive write_io :=
  | OpenFails
  | WriteFails (left_in_file : string)
  | WriteDone.

(** One round of the loop of [ProcessLock.acquire]: what other processes
    did to the file since the round before (nothing, or the state they
    left), how the exclusive creation goes when the file is absent, the
    text of [time.time()] written into the file, and the clock read after
    a failure. *)
Record acquire_round := {
  interference : option lock_file;
  creation : write_io;
  stamp : string;
  clock : float
}.

(** [os.open(..., O_CREAT | O_EXCL | O_RDWR)] and the write of
    [f"{os.getpid()}\n{time.time()}"]: whether the lock was taken, and
    the file afterwards. *)
Definition create_exclusive (pid : N) (r : acquire_round) (file : lock_file)
    : bool * lock_file :=
  match file with
  | Some _ => (false, file)
  | None =>
      match creation r with
      | OpenFails => (false, None)
      | WriteFails left_in_file => (false, Some left_in_file)
      | WriteDone =>
          (true, Some (str_of_pid pid +:+ String "010"%char (stamp r)))
      end
  end.

(** The [while True] loop of [acquire] over the rounds given; nothing
    when it is still waiting after the last of them. *)
Fixpoint acquire_loop (pid : N) (blocking : bool) (timeout start_time : float)
    (rounds : list acquire_round) (file : lock_file) : option (bool * lock_file) :=
  match rounds with
  | [] => None
  | r :: rest =>
      let seen := default file (interference r) in
      match create_exclusive pid r seen with
      | (true, file') => Some (true, file')
      | (false, file') =>
          if negb blocking then Some (false, file')
          else if geb (clock r - start_time) timeout then Some (false, file')
          else acquire_loop pid blocking timeout start_time rest file'
      end
  end.

(** [ProcessLock.acquire]: the object, the value returned and the file. *)
Definition acquire (pid : N) (blocking : bool) (timeout start_time : float)
    (rounds : list acquire_round) (self : ProcessLock) (file : lock_file)
    : option (ProcessLock * bool * lock_file) :=
  if lock_acquired self then Some (self, true, file)
  else
    match acquire_loop pid blocking timeout start_time rounds file with
    | Some (true, file') => Some ({| lock_acquired := true |}, true, file')
    | Some (false, file') => Some (self, false, file')
    | None => None
    end.

(** [ProcessLock.is_locked]. *)
Definition is_locked (file : lock_file) : bool := bool_decide (file ≠ None).

(** The lock file of [main]: written at start with [open(..., 'w')],
    whoever owns it; the flag is [lock_created_by_this_instance]. *)
Definition main_create_lock (pid : N) (io : write_io) (file : lock_file)
    : bool * lock_file :=
  match io with
  | OpenFails => (false, file)
  | WriteFails left_in_file => (false, Some left_in_file)
  | WriteDone => (true, Some (str_of_pid pid))
  end.

(** The re-assertion while a token is loaded: the file is written again
    when this instance created it and it is gone. *)
Definition main_reassert_lock (pid : N) (io : write_io)
    (lock_created_by_this_instance : bool) (file : lock_file) : lock_file :=
  if lock_created_by_this_instance && bool_decide (file = None) then
    match io with
    | OpenFails => file
    | WriteFails left_in_file => Some left_in_file
    | WriteDone => Some (str_of_pid pid)
    end
  else file.

(** Float division outside the loop's monad: nothing for a
    [ZeroDivisionError]. *)
Definition float_div (a b : float) : option float :=
  if b =? 0 then None else Some (a / b).

(** [(v2 - v1) / v1 if v1 > 0 else 0]. *)
Definition change_pct (v1 v2 : float) : option float :=
  if gtb v1 0 then float_div (v2 - v1) v1 else Some 0.

(** A snapshot of [get_token_metrics]: price, liquidity, volume. *)
Definition snapshot : Type := float * float * float.

(** [whale_trap_avoidance], with the three thresholds the module reads
    from its environment; nothing for an exception. *)
Definition whale_trap_avoidance
    (WHALE_PRICE_UP_PCT WHALE_LIQUIDITY_UP_PCT WHALE_VOLUME_DOWN_PCT : float)
    (first_snap second_snap : snapshot) : option bool :=
  let '(price1, liquidity1, volume1) := first_snap in
  let '(price2, liquidity2, volume2) := second_snap in
  price_change_pct ← change_pct price1 price2;
  volume_change_pct ← change_pct volume1 volume2;
  liq_change_pct ← change_pct liquidity1 liquidity2;
  Some (gtb price_change_pct WHALE_PRICE_UP_PCT
        && gtb liq_change_pct WHALE_LIQUIDITY_UP_PCT
        && (volume_change_pct <? WHALE_VOLUME_DOWN_PCT)).

(** The stripped addresses of the rows of a queue file, in order. *)
Definition queue_addresses (queue : csv_file) : list string :=
  match queue with
  | Some (headers :: records) => row_address <$> dict_rows headers records
  | _ => []
  end.

(** A character that is a decimal digit. *)
Definition is_digit (a : ascii) : bool :=
  let n := N_of_ascii a in ((48 <=? n) && (n <=? 57))%N.

Fixpoint all_chars (p : ascii -> bool) (s : string) : bool :=
  match s with
  | EmptyString => true
  | String a rest => p a && all_chars p rest
  end.

(** What holds of the token state throughout an epoch: status, flag and
    buy price go together; a detected buy signal has a baseline below it
    and a buy price that met neither selling rule; a running stagnation
    timer has a baseline; the trade buffer is within its bound. *)
Definition epoch_consistent (cfg : config) (g : globals) : Prop :=
  (g_trade_status g = bought ↔ g_buy_signal_detected g = true)
  ∧ (is_Some (g_buy_price_usd g) ↔ g_buy_signal_detected g = true)
  ∧ (g_buy_signal_detected g = true →
     ∃ baseline buy,
       g_baseline_price_usd g = Some baseline
       ∧ g_buy_price_usd g = Some buy
       ∧ gtb buy (baseline * BUY_SIGNAL_PRICE_INCREASE_PERCENT cfg) = true
       ∧ geb buy (buy * TAKE_PROFIT_THRESHOLD_PERCENT cfg) = false
       ∧ (buy <=? buy * STOP_LOSS_THRESHOLD_PERCENT cfg) = false)
  ∧ (is_Some (g_stagnation_timer_start g) → is_Some (g_baseline_price_usd g))
  ∧ length (g_latest_trade_data g) ≤ 100.

(** * Properties *)

(** ** Order on binary64 values

    Facts about [<?] and [<=?], from the specification of the
    comparisons on [spec_float]. *)

Ltac order_cases :=
  repeat match goal with
  | |- context [Z.compare ?a ?b] => destruct (Z.compare_spec a b)
  | H : context [Z.compare ?a ?b] |- _ => destruct (Z.compare_spec a b)
  | |- context [Pos.compare_cont Eq ?a ?b] =>
      change (Pos.compare_cont Eq a b) with (Pos.compare a b);
      destruct (Pos.compare_spec a b)
  | H : context [Pos.compare_cont Eq ?a ?b] |- _ =>
      change (Pos.compare_cont Eq a b) with (Pos.compare a b) in H;
      destruct (Pos.compare_spec a b)
  end.

Ltac sf_order :=
  unfold SFltb, SFleb, SFeqb, SFcompare in *;
  repeat match goal with
  | s : bool |- _ => destruct s
  end;
  simpl in *; try discriminate; try reflexivity; try congruence;
  order_cases; simpl in *; subst; try discriminate; try reflexivity;
  try congruence; try lia.

Lemma SFltb_leb_trans a b c :
  SFltb a b = true -> SFleb b c = true -> SFltb a c = true.
Proof. destruct a, b, c; intros; sf_order. Qed.

Lemma SFltb_leb a b : SFltb a b = true -> SFleb a b = true.
Proof. destruct a, b; intros; sf_order. Qed.

Lemma SFleb_total a b :
  a <> S754_nan -> b <> S754_nan -> SFleb a b = false -> SFltb b a = true.
Proof. destruct a, b; intros; sf_order. Qed.

Lemma SFltb_numbers a b : SFltb a b = true -> a <> S754_nan /\ b <> S754_nan.
Proof. destruct a, b; intros; split; sf_order. Qed.

Lemma SFleb_numbers a b : SFleb a b = true -> a <> S754_nan /\ b <> S754_nan.
Proof. destruct a, b; intros; split; sf_order. Qed.

Lemma float_between (w x a p c : float) :
  (w <? x) = true -> (a <=? x) = false -> (x <=? c) = false ->
  (a <=? p) = true -> (p <=? c) = true -> False.
Proof.
  rewrite FloatAxioms.ltb_spec, !FloatAxioms.leb_spec. intros Hw Hax Hxc Hap Hpc.
  apply SFltb_numbers in Hw as [_ Hx].
  pose proof (SFleb_numbers _ _ Hap) as [Ha _].
  pose proof (SFleb_total _ _ Ha Hx Hax) as Hlt.
  pose proof (SFltb_leb_trans _ _ _ (SFltb_leb_trans _ _ _ Hlt Hap) Hpc) as Hxc'.
  apply SFltb_leb in Hxc'. congruence.
Qed.

Lemma positive_not_zero (x : float) : (0 <? x) = true -> (x =? 0) = false.
Proof.
  rewrite FloatAxioms.ltb_spec, FloatAxioms.eqb_spec. change (Prim2SF 0) with (S754_zero false).
  destruct (Prim2SF x); intros; sf_order.
Qed.

(** ** The evaluation, step by step *)

Ltac unfold_checks :=
  unfold evaluate, token_lifecycle_checks, set_initial_baseline,
    no_buy_signal_check, take_profit_stop_loss_check, stagnation_check,
    mbind, M_bind, mret, M_ret, get, modify, raise.

Ltac use_condition :=
  match goal with
  | H : ?b = true |- context [?b] => rewrite H; simpl
  | H : ?b = false |- context [?b] => rewrite H; simpl
  end.

Ltac split_cases :=
  repeat (first [use_condition | case_match; simplify_eq/=]; try done).

Ltac open_state g :=
  destruct g as [sol data fetch cur name base st buy start sig timer];
  simpl in *; simplify_eq/=.

Lemma evaluate_keeps_buy_signal cfg mint now usd g r g' :
  evaluate cfg mint now usd g = (r, g') ->
  g_buy_signal_detected g = true ->
  g_buy_signal_detected g' = true
  /\ g_buy_price_usd g' = g_buy_price_usd g
  /\ g_trade_status g' = g_trade_status g.
Proof.
  intros Hev Hb. revert Hev. unfold_checks. open_state g.
  split_cases; intros; simplify_eq/=; done.
Qed.

Lemma evaluations_keep_buy_signal cfg mint ticks g :
  g_buy_signal_detected g = true ->
  let g' := evaluations cfg mint ticks g in
  g_buy_signal_detected g' = true
  /\ g_buy_price_usd g' = g_buy_price_usd g
  /\ g_trade_status g' = g_trade_status g.
Proof.
  revert g. induction ticks as [|[now usd] rest IH]; intros g Hb; simpl; [done|].
  destruct (evaluate cfg mint now usd g) as [r g1] eqn:Hev.
  destruct (evaluate_keeps_buy_signal _ _ _ _ _ _ _ Hev Hb) as (Hb1 & Hp1 & Hs1).
  destruct r; [|done].
  destruct (IH g1 Hb1) as (? & ? & ?). simpl in *. repeat split; congruence.
Qed.

Lemma buy_transitions_after_signal cfg mint ticks g :
  g_buy_signal_detected g = true -> buy_transitions cfg mint ticks g = 0%nat.
Proof.
  revert g. induction ticks as [|[now usd] rest IH]; intros g Hb; simpl; [done|].
  destruct (evaluate cfg mint now usd g) as [r g1] eqn:Hev.
  destruct (evaluate_keeps_buy_signal _ _ _ _ _ _ _ Hev Hb) as (Hb1 & _).
  rewrite Hb. simpl. destruct r; [by apply IH|done].
Qed.

Lemma evaluate_buy_signal cfg mint now P B g :
  g_baseline_price_usd g = Some B ->
  g_buy_signal_detected g = false ->
  gtb P (B * BUY_SIGNAL_PRICE_INCREASE_PERCENT cfg) = true ->
  let r := evaluate cfg mint now (Some P) g in
  g_buy_signal_detected r.2 = true
  /\ g_buy_price_usd r.2 = Some P
  /\ g_trade_status r.2 = bought
  /\ ∀ c, r.1 = Raised (TokenProcessingComplete c) -> reason c ≠ NoBuySignalTimeout.
Proof.
  intros HB Hb HP. unfold_checks. open_state g. rewrite HP. simpl.
  split_cases; repeat split; intros; simplify_eq/=; done.
Qed.

(** C1, as amended: with the baseline [B] set and no buy signal yet, an
    evaluation that sees a price strictly above [B * 1.01] sets the flag,
    records the price as buy price and moves to [bought]; it is the one
    evaluation of the epoch that does so, and flag, buy price and status
    stay as they are until the epoch ends. *)
Theorem buy_signal_detected_once cfg mint now P B g rest :
  g_baseline_price_usd g = Some B ->
  g_buy_signal_detected g = false ->
  gtb P (B * BUY_SIGNAL_PRICE_INCREASE_PERCENT cfg) = true ->
  let g' := (evaluate cfg mint now (Some P) g).2 in
  let g'' := evaluations cfg mint ((now, Some P) :: rest) g in
  (g_buy_signal_detected g' = true
   /\ g_buy_price_usd g' = Some P
   /\ g_trade_status g' = bought)
  /\ buy_transitions cfg mint ((now, Some P) :: rest) g = 1%nat
  /\ (g_buy_signal_detected g'' = true
      /\ g_buy_price_usd g'' = Some P
      /\ g_trade_status g'' = bought).
Proof.
  intros HB Hb HP.
  destruct (evaluate_buy_signal cfg mint now P B g HB Hb HP) as (H1 & H2 & H3 & _).
  simpl. destruct (evaluate cfg mint now (Some P) g) as [r g1] eqn:Hev. simpl in *.
  split; [done|]. split.
  - rewrite Hb, H1. simpl. destruct r; [|done].
    by rewrite buy_transitions_after_signal.
  - destruct r; [|done].
    destruct (evaluations_keep_buy_signal cfg mint rest g1 H1) as (? & ? & ?).
    simpl in *. repeat split; congruence.
Qed.

Lemma buy_signal_detected_once_witness :
  let g := evaluations standard_config "MINT" [(1001, Some 1)] example_epoch in
  let rest := [(1003, Some 1.05); (1004, Some 1.15)] in
  let g' := (evaluate standard_config "MINT" 1002 (Some 1.02) g).2 in
  let g'' := evaluations standard_config "MINT" ((1002, Some 1.02) :: rest) g in
  (g_baseline_price_usd g = Some 1
   /\ g_buy_signal_detected g = false
   /\ gtb 1.02 (1 * BUY_SIGNAL_PRICE_INCREASE_PERCENT standard_config) = true)
  /\ (g_buy_signal_detected g' = true
      /\ g_buy_price_usd g' = Some 1.02
      /\ g_trade_status g' = bought)
  /\ buy_transitions standard_config "MINT" ((1002, Some 1.02) :: rest) g = 1%nat
  /\ (g_buy_signal_detected g'' = true
      /\ g_buy_price_usd g'' = Some 1.02
      /\ g_trade_status g'' = bought).
Proof.
  split; [repeat split|].
  exact (buy_signal_detected_once standard_config "MINT" 1002 1.02 1
    (evaluations standard_config "MINT" [(1001, Some 1)] example_epoch)
    [(1003, Some 1.05); (1004, Some 1.15)] eq_refl eq_refl eq_refl).
Defined.

(** C1 as stated fails at the threshold itself: with baseline 1 and the
    price 1.01 = 1 * 1.01 no buy signal is detected. *)
Lemma buy_signal_not_at_threshold :
  let g := evaluations standard_config "MINT" [(1001, Some 1)] example_epoch in
  g_baseline_price_usd g = Some 1
  /\ g_buy_signal_detected g = false
  /\ geb 1.01 (1 * BUY_SIGNAL_PRICE_INCREASE_PERCENT standard_config) = true
  /\ evaluate standard_config "MINT" 1002 (Some 1.01) g = (Normal tt, g).
Proof. repeat split. Qed.

(** C6: with the baseline set and no buy signal yet, an evaluation whose
    price is above the buy threshold while the no-buy-signal timeout has
    also run out detects the buy signal (flag, buy price, status
    [bought]) and does not end with [NoBuySignalTimeout]. *)
Theorem buy_signal_checked_before_timeout cfg mint now P B g :
  g_baseline_price_usd g = Some B ->
  g_buy_signal_detected g = false ->
  gtb P (B * BUY_SIGNAL_PRICE_INCREASE_PERCENT cfg) = true ->
  gtb (now - g_token_start_time g) (NO_BUY_SIGNAL_TIMEOUT_SECONDS cfg) = true ->
  let r := evaluate cfg mint now (Some P) g in
  g_buy_signal_detected r.2 = true
  /\ g_buy_price_usd r.2 = Some P
  /\ g_trade_status r.2 = bought
  /\ ∀ c, r.1 = Raised (TokenProcessingComplete c) -> reason c ≠ NoBuySignalTimeout.
Proof. intros HB Hb HP _. by apply (evaluate_buy_signal cfg mint now P B g). Qed.

Lemma buy_signal_checked_before_timeout_witness :
  let g := evaluations standard_config "MINT" [(1001, Some 1)] example_epoch in
  let r := evaluate standard_config "MINT" 1200 (Some 1.02) g in
  (g_baseline_price_usd g = Some 1
   /\ g_buy_signal_detected g = false
   /\ gtb 1.02 (1 * BUY_SIGNAL_PRICE_INCREASE_PERCENT standard_config) = true
   /\ gtb (1200 - g_token_start_time g)
        (NO_BUY_SIGNAL_TIMEOUT_SECONDS standard_config) = true)
  /\ g_buy_signal_detected r.2 = true
  /\ g_buy_price_usd r.2 = Some 1.02
  /\ g_trade_status r.2 = bought
  /\ ∀ c, r.1 = Raised (TokenProcessingComplete c) -> reason c ≠ NoBuySignalTimeout.
Proof.
  split; [repeat split|].
  exact (buy_signal_checked_before_timeout standard_config "MINT" 1200 1.02 1
    (evaluations standard_config "MINT" [(1001, Some 1)] example_epoch)
    eq_refl eq_refl eq_refl eq_refl).
Defined.

(** C3, as amended: once the baseline is set (before the evaluation or by
    it), with no buy signal detected, an evaluation whose price does not
    exceed the buy threshold and that runs more than 180 s after the
    epoch started ends with [NoBuySignalTimeout], the sell price being
    the current price if there is one.  While no price has been seen the
    baseline stays unset and an evaluation without a price changes
    nothing and ends nothing, however late it runs. *)
Theorem no_buy_signal_timeout cfg mint now usd B g :
  (g_baseline_price_usd g = Some B
   \/ (g_baseline_price_usd g = None /\ usd = Some B)) ->
  g_buy_signal_detected g = false ->
  price_above usd (B * BUY_SIGNAL_PRICE_INCREASE_PERCENT cfg) = false ->
  gtb (now - g_token_start_time g) (NO_BUY_SIGNAL_TIMEOUT_SECONDS cfg) = true ->
  (evaluate cfg mint now usd g).1
  = Raised (TokenProcessingComplete
      {| mint_address := mint; reason := NoBuySignalTimeout;
         buy_price := None; sell_price := usd |})
  /\ ∀ g0 later, g_baseline_price_usd g0 = None ->
       evaluate cfg mint later None g0 = (Normal tt, g0).
Proof.
  intros HB Hb HP Ht. split.
  - unfold_checks. open_state g.
    destruct HB as [->|[-> ->]]; simpl in *; [destruct usd; simpl in *|];
      rewrite ?HP, Ht; done.
  - intros g0 later H0. unfold_checks. open_state g0. done.
Qed.

Lemma no_buy_signal_timeout_witness :
  let g := evaluations standard_config "MINT" [(1001, Some 1)] example_epoch in
  (g_baseline_price_usd g = Some 1
   /\ g_buy_signal_detected g = false
   /\ price_above (Some 0.99)
        (1 * BUY_SIGNAL_PRICE_INCREASE_PERCENT standard_config) = false
   /\ gtb (1181 - g_token_start_time g)
        (NO_BUY_SIGNAL_TIMEOUT_SECONDS standard_config) = true)
  /\ (evaluate standard_config "MINT" 1181 (Some 0.99) g).1
     = Raised (TokenProcessingComplete
         {| mint_address := "MINT"; reason := NoBuySignalTimeout;
            buy_price := None; sell_price := Some 0.99 |}).
Proof.
  split; [repeat split|].
  apply (no_buy_signal_timeout standard_config "MINT" 1181 (Some 0.99) 1
    (evaluations standard_config "MINT" [(1001, Some 1)] example_epoch));
    [left; reflexivity | reflexivity | reflexivity | reflexivity].
Defined.

(** C3 as stated fails for an epoch that never saw a price: long after
    the 180 s, an evaluation without a price ends nothing. *)
Lemma no_timeout_without_baseline :
  g_baseline_price_usd example_epoch = None
  /\ g_buy_signal_detected example_epoch = false
  /\ gtb (5000 - g_token_start_time example_epoch)
       (NO_BUY_SIGNAL_TIMEOUT_SECONDS standard_config) = true
  /\ evaluate standard_config "MINT" 5000 None example_epoch
     = (Normal tt, example_epoch).
Proof. repeat split. Qed.

(** C5, as amended (both timeouts equal, 180 s as configured): with the
    baseline set and no price in the evaluation, [StagnationNoData] is
    the outcome when a buy signal was detected, the stagnation timer is
    unset at that moment and more than 180 s have passed since the epoch
    started; it is the outcome only then, whatever the price input;
    without a buy signal the same evaluation ends with
    [NoBuySignalTimeout] instead. *)
Theorem stagnation_without_price_data cfg mint now B g :
  g_baseline_price_usd g = Some B ->
  NO_BUY_SIGNAL_TIMEOUT_SECONDS cfg = STAGNATION_TIMEOUT_SECONDS cfg ->
  let late := gtb (now - g_token_start_time g) (STAGNATION_TIMEOUT_SECONDS cfg) in
  (g_buy_signal_detected g = true -> g_stagnation_timer_start g = None ->
   late = true ->
   (evaluate cfg mint now None g).1
   = Raised (TokenProcessingComplete
       {| mint_address := mint; reason := StagnationNoData;
          buy_price := None; sell_price := None |}))
  /\ (∀ usd c,
       (evaluate cfg mint now usd g).1 = Raised (TokenProcessingComplete c) ->
       reason c = StagnationNoData ->
       usd = None /\ g_buy_signal_detected g = true
       /\ g_stagnation_timer_start g = None /\ late = true)
  /\ (g_buy_signal_detected g = false -> late = true ->
      (evaluate cfg mint now None g).1
      = Raised (TokenProcessingComplete
          {| mint_address := mint; reason := NoBuySignalTimeout;
             buy_price := None; sell_price := None |})).
Proof.
  intros HB Heq late. subst late. split; [|split].
  - intros Hb Ht Hl. unfold_checks. open_state g. by split_cases.
  - intros usd c. unfold_checks. open_state g. rewrite Heq.
    split_cases; intros; simplify_eq/=; try done.
    all: match goal with H : bool_decide _ && _ = true |- _ =>
      apply andb_prop in H as [H%bool_decide_eq_true ?] end.
    all: try done; congruence.
  - intros Hb Ht. unfold_checks. open_state g. rewrite Heq. by split_cases.
Qed.

Lemma stagnation_without_price_data_witness :
  let g := evaluations standard_config "MINT"
             [(1001, Some 1); (1002, Some 1.02)] example_epoch in
  (g_baseline_price_usd g = Some 1
   /\ g_buy_signal_detected g = true
   /\ g_stagnation_timer_start g = None
   /\ gtb (1181 - g_token_start_time g)
        (STAGNATION_TIMEOUT_SECONDS standard_config) = true)
  /\ (evaluate standard_config "MINT" 1181 None g).1
     = Raised (TokenProcessingComplete
         {| mint_address := "MINT"; reason := StagnationNoData;
            buy_price := None; sell_price := None |}).
Proof.
  split; [repeat split|].
  apply (stagnation_without_price_data standard_config "MINT" 1181 1
    (evaluations standard_config "MINT"
       [(1001, Some 1); (1002, Some 1.02)] example_epoch) eq_refl eq_refl);
    reflexivity.
Defined.

(** C5 as stated fails twice.  Without a buy signal the evaluation ends
    with [NoBuySignalTimeout], not [StagnationNoData]; and the outcome
    does fire in an epoch whose timer was started (at 1002) and cleared
    again (at 1003). *)
Lemma stagnation_no_data_not_as_stated :
  let g := evaluations standard_config "MINT" [(1001, Some 1)] example_epoch in
  let h := evaluations standard_config "MINT"
             [(1001, Some 1); (1002, Some 0.5)] example_epoch in
  let h' := evaluations standard_config "MINT" [(1003, Some 1.02)] h in
  (g_baseline_price_usd g = Some 1 /\ g_stagnation_timer_start g = None
   /\ (evaluate standard_config "MINT" 1181 None g).1
      = Raised (TokenProcessingComplete
          {| mint_address := "MINT"; reason := NoBuySignalTimeout;
             buy_price := None; sell_price := None |}))
  /\ (g_stagnation_timer_start h = Some 1002
      /\ g_stagnation_timer_start h' = None
      /\ (evaluate standard_config "MINT" 1200 None h').1
         = Raised (TokenProcessingComplete
             {| mint_address := "MINT"; reason := StagnationNoData;
                buy_price := None; sell_price := None |})).
Proof. repeat split. Qed.

(** C4, as amended: with the baseline [B] set and a price [P] in an
    evaluation that is not closed by the no-buy-signal timeout, take
    profit or stop loss, whether or not a buy signal was detected: a
    price below [B * 0.80] starts the timer when it is unset, and closes
    the epoch with [Stagnation] when the timer was started more than
    180 s before (strictly), and otherwise leaves the timer running; a
    price that is not below [B * 0.80] leaves the timer unset. *)
Theorem stagnation_timer cfg mint now P B g :
  g_baseline_price_usd g = Some B ->
  let r := evaluate cfg mint now (Some P) g in
  not_closed_earlier r.1 ->
  if P <? B * STAGNATION_PRICE_THRESHOLD_PERCENT cfg then
    match g_stagnation_timer_start g with
    | None => r.1 = Normal tt /\ g_stagnation_timer_start r.2 = Some now
    | Some started =>
        if gtb (now - started) (STAGNATION_TIMEOUT_SECONDS cfg) then
          r.1 = Raised (TokenProcessingComplete
                  {| mint_address := mint; reason := Stagnation;
                     buy_price := None; sell_price := Some P |})
        else r.1 = Normal tt /\ g_stagnation_timer_start r.2 = Some started
    end
  else r.1 = Normal tt /\ g_stagnation_timer_start r.2 = None.
Proof.
  intros HB r. subst r. unfold not_closed_earlier. unfold_checks. open_state g.
  split_cases; intros Hn; try done.
  all: by edestruct Hn as (? & ? & ?); [reflexivity|].
Qed.

Lemma stagnation_timer_witness :
  let g := evaluations standard_config "MINT"
             [(1001, Some 1); (900, Some 0.5)] example_epoch in
  (g_baseline_price_usd g = Some 1
   /\ g_stagnation_timer_start g = Some 900
   /\ (0.5 <? 1 * STAGNATION_PRICE_THRESHOLD_PERCENT standard_config) = true
   /\ gtb (1081 - 900) (STAGNATION_TIMEOUT_SECONDS standard_config) = true)
  /\ (evaluate standard_config "MINT" 1081 (Some 0.5) g).1
     = Raised (TokenProcessingComplete
         {| mint_address := "MINT"; reason := Stagnation;
            buy_price := None; sell_price := Some 0.5 |}).
Proof.
  split; [repeat split|].
  apply (stagnation_timer standard_config "MINT" 1081 0.5 1
    (evaluations standard_config "MINT"
       [(1001, Some 1); (900, Some 0.5)] example_epoch) eq_refl).
  intros c Hc. vm_compute in Hc. simplify_eq. done.
Defined.

(** C4 as stated fails in three ways.  A price below the threshold with
    the timer set for 181 s ends with [NoBuySignalTimeout], because that
    check runs first; at exactly 180 s on the timer nothing closes; and
    while a position is held a price below the threshold meets the stop
    loss first, so the timer is not started. *)
Lemma stagnation_not_as_stated :
  let g1 := evaluations standard_config "MINT"
              [(1001, Some 1); (1002, Some 0.5); (1180, Some 0.5)] example_epoch in
  let g2 := evaluations standard_config "MINT"
              [(1001, Some 1); (900, Some 0.5)] example_epoch in
  let g3 := evaluations standard_config "MINT"
              [(1001, Some 1); (1002, Some 1.02)] example_epoch in
  (g_baseline_price_usd g1 = Some 1
   /\ g_stagnation_timer_start g1 = Some 1002
   /\ (0.5 <? 1 * STAGNATION_PRICE_THRESHOLD_PERCENT standard_config) = true
   /\ geb (1183 - 1002) 180 = true
   /\ (evaluate standard_config "MINT" 1183 (Some 0.5) g1).1
      = Raised (TokenProcessingComplete
          {| mint_address := "MINT"; reason := NoBuySignalTimeout;
             buy_price := None; sell_price := Some 0.5 |}))
  /\ (g_baseline_price_usd g2 = Some 1
      /\ g_stagnation_timer_start g2 = Some 900
      /\ geb (1080 - 900) 180 = true
      /\ evaluate standard_config "MINT" 1080 (Some 0.5) g2 = (Normal tt, g2))
  /\ (g_baseline_price_usd g3 = Some 1
      /\ g_buy_signal_detected g3 = true
      /\ g_stagnation_timer_start g3 = None
      /\ g_stagnation_timer_start
           (evaluate standard_config "MINT" 1003 (Some 0.5) g3).2 = None
      /\ (evaluate standard_config "MINT" 1003 (Some 0.5) g3).1
         = Raised (TokenProcessingComplete
             {| mint_address := "MINT"; reason := StopLoss;
                buy_price := Some 1.02; sell_price := Some 0.5 |})).
Proof. repeat split. Qed.

(** ** States of a running epoch *)

Lemma evaluate_holding_invariant cfg mint now usd g g' :
  holding_invariant cfg g ->
  evaluate cfg mint now usd g = (Normal tt, g') ->
  holding_invariant cfg g'.
Proof.
  unfold holding_invariant. intros Hinv Hev.
  destruct (g_buy_signal_detected g) eqn:Hb.
  - destruct (evaluate_keeps_buy_signal _ _ _ _ _ _ _ Hev Hb) as (_ & Hp & _).
    destruct (Hinv eq_refl) as (b & w & x & HB & HX & ?). intros _.
    exists b, w, x. rewrite Hp. split; [|done].
    revert Hev. unfold_checks. open_state g. split_cases; intros; by simplify_eq/=.
  - clear Hinv. revert Hev. unfold_checks. unfold price_above. open_state g.
    split_cases; intros; simplify_eq/=; try done.
    all: eexists _, _, _; repeat split; eauto.
Qed.

Lemma price_determination_fields cfg now dex g r g' :
  price_determination cfg now dex g = (r, g') ->
  g_baseline_price_usd g' = g_baseline_price_usd g
  /\ g_buy_price_usd g' = g_buy_price_usd g
  /\ g_buy_signal_detected g' = g_buy_signal_detected g.
Proof.
  unfold price_determination, price_from_recent_trade, truediv.
  unfold mbind, M_bind, mret, M_ret, get, modify, raise. open_state g.
  split_cases; intros; by simplify_eq/=.
Qed.

Lemma trade_logic_iteration_evaluate cfg mint i g g' :
  trade_logic_iteration cfg mint i g = (Normal Continue, g') ->
  ∃ usd g1,
    evaluate cfg mint (current_time i) usd g1 = (Normal tt, g')
    /\ g_baseline_price_usd g1 = g_baseline_price_usd g
    /\ g_buy_price_usd g1 = g_buy_price_usd g
    /\ g_buy_signal_detected g1 = g_buy_signal_detected g.
Proof.
  unfold trade_logic_iteration. unfold mbind at 1. unfold M_bind, get.
  case_bool_decide; [done|].
  unfold mbind at 1. unfold M_bind.
  destruct (price_determination cfg (current_time i) (dex_answer i) g)
    as [[usd|e] g1] eqn:Hp; [|done].
  apply price_determination_fields in Hp.
  unfold mbind at 1. unfold M_bind.
  destruct (evaluate cfg mint (current_time i) usd g1) as [[[]|e] g2] eqn:He; [|done].
  unfold mret, M_ret. intros [= <-]. by exists usd, g1.
Qed.

Lemma epoch_state_holding cfg mint g :
  epoch_state cfg mint g -> holding_invariant cfg g.
Proof.
  induction 1 as [now g|trades sol g _ IH|now usd g g' _ IH Hev|i g g' _ IH Hit].
  - intros Hb. done.
  - exact IH.
  - by eapply evaluate_holding_invariant.
  - apply trade_logic_iteration_evaluate in Hit as (usd & g1 & Hev & HB & HX & Hb).
    eapply evaluate_holding_invariant; [|exact Hev].
    unfold holding_invariant in *. rewrite HB, HX, Hb. exact IH.
Qed.

(** C2: in a state that holds a position bought at [X], with a price [P]
    in the evaluation: [P >= X * 1.10] closes the epoch with
    [TakeProfit]; otherwise [P <= X * 0.95] closes it with [StopLoss];
    take profit is checked first and wins whenever both hold, whatever
    the thresholds; and in a state the running loop has reached both
    cannot hold at once (with the standard thresholds, and with any
    others). *)
Theorem take_profit_then_stop_loss cfg mint now P B X g :
  g_baseline_price_usd g = Some B ->
  g_buy_signal_detected g = true ->
  g_buy_price_usd g = Some X ->
  let r := (evaluate cfg mint now (Some P) g).1 in
  let take_profit := geb P (X * TAKE_PROFIT_THRESHOLD_PERCENT cfg) in
  let stop_loss := P <=? X * STOP_LOSS_THRESHOLD_PERCENT cfg in
  (take_profit = true ->
   r = Raised (TokenProcessingComplete
         {| mint_address := mint; reason := TakeProfit;
            buy_price := Some X; sell_price := Some P |}))
  /\ (take_profit = false -> stop_loss = true ->
      r = Raised (TokenProcessingComplete
            {| mint_address := mint; reason := StopLoss;
               buy_price := Some X; sell_price := Some P |}))
  /\ (epoch_state cfg mint g -> ¬ (take_profit = true /\ stop_loss = true)).
Proof.
  intros HB Hb HX r tp sl. subst r tp sl. split; [|split].
  - intros Htp. unfold_checks. open_state g. by split_cases.
  - intros Htp Hsl. unfold_checks. open_state g. by split_cases.
  - intros Hst [Htp Hsl]. apply epoch_state_holding in Hst.
    destruct (Hst Hb) as (b & w & x & _ & HX' & Hw & Hntp & Hnsl).
    rewrite HX in HX'. simplify_eq. unfold geb, gtb in *.
    exact (float_between _ _ _ _ _ Hw Hntp Hnsl Htp Hsl).
Qed.

Lemma take_profit_then_stop_loss_witness :
  let g := evaluations standard_config "MINT"
             [(1001, Some 1); (1002, Some 1.02)] example_epoch in
  (g_baseline_price_usd g = Some 1
   /\ g_buy_signal_detected g = true
   /\ g_buy_price_usd g = Some 1.02
   /\ geb 1.15 (1.02 * TAKE_PROFIT_THRESHOLD_PERCENT standard_config) = true)
  /\ (evaluate standard_config "MINT" 1003 (Some 1.15) g).1
     = Raised (TokenProcessingComplete
         {| mint_address := "MINT"; reason := TakeProfit;
            buy_price := Some 1.02; sell_price := Some 1.15 |})
  /\ ¬ (geb 1.15 (1.02 * TAKE_PROFIT_THRESHOLD_PERCENT standard_config) = true
        /\ (1.15 <=? 1.02 * STOP_LOSS_THRESHOLD_PERCENT standard_config) = true).
Proof.
  split; [repeat split|].
  destruct (take_profit_then_stop_loss standard_config "MINT" 1003 1.15 1 1.02
    (evaluations standard_config "MINT"
       [(1001, Some 1); (1002, Some 1.02)] example_epoch)
    eq_refl eq_refl eq_refl) as (Htp & _ & Hex).
  split.
  - apply Htp. reflexivity.
  - apply Hex.
    apply (epoch_evaluate _ _ 1002 (Some 1.02)
             (evaluations standard_config "MINT" [(1001, Some 1)] example_epoch));
      [|reflexivity].
    apply (epoch_evaluate _ _ 1001 (Some 1) example_epoch); [|reflexivity].
    apply (epoch_reset _ _ 1000).
Defined.

(** With overlapping thresholds both rules apply to the price at which the
    position is bought, and the outcome is [TakeProfit]. *)
Lemma take_profit_wins_overlap :
  let g := evaluations overlapping_config "MINT" [(1001, Some 1)] example_epoch in
  geb 1.02 (1.02 * TAKE_PROFIT_THRESHOLD_PERCENT overlapping_config) = true
  /\ (1.02 <=? 1.02 * STOP_LOSS_THRESHOLD_PERCENT overlapping_config) = true
  /\ (evaluate overlapping_config "MINT" 1002 (Some 1.02) g).1
     = Raised (TokenProcessingComplete
         {| mint_address := "MINT"; reason := TakeProfit;
            buy_price := Some 1.02; sell_price := Some 1.02 |}).
Proof. repeat split. Qed.

(** ** The price of a tick *)

Lemma price_from_recent_trade_cases g :
  match last (g_latest_trade_data g) with
  | Some t =>
      if gtb (amount t) 0 then
        (amount t =? 0) = false
        /\ price_from_recent_trade g
           = (Normal (Some (solAmount t / amount t * g_last_known_sol_price g)), g)
      else price_from_recent_trade g = (Normal None, g)
  | None => price_from_recent_trade g = (Normal None, g)
  end.
Proof.
  unfold price_from_recent_trade, truediv.
  unfold mbind, M_bind, mret, M_ret, get, raise.
  destruct (last (g_latest_trade_data g)) as [t|]; [|done].
  destruct (gtb (amount t) 0) eqn:Hpos; [|done].
  apply positive_not_zero in Hpos. by rewrite Hpos.
Qed.

(** C10: deriving the price from the trade buffer never raises, so never
    divides by zero; a price comes out only as the quotient of the most
    recent trade, whose token amount is then above zero; with an empty
    buffer, or a most recent token amount that is not above zero, there
    is no price from the trades and the price of the tick is what the
    Dexscreener fallback gives (its answer once the request interval has
    passed, nothing before), again without raising. *)
Theorem feed_price_never_divides_by_zero cfg now dex g :
  let recent := last (g_latest_trade_data g) in
  (∃ p, price_from_recent_trade g = (Normal p, g))
  /\ (∃ p g', price_determination cfg now dex g = (Normal p, g'))
  /\ (∀ p, price_from_recent_trade g = (Normal (Some p), g) ->
        ∃ t, recent = Some t
             /\ gtb (amount t) 0 = true
             /\ (amount t =? 0) = false
             /\ p = solAmount t / amount t * g_last_known_sol_price g)
  /\ ((recent = None \/ ∃ t, recent = Some t /\ gtb (amount t) 0 = false) ->
        price_from_recent_trade g = (Normal None, g)
        /\ price_determination cfg now dex g
           = if gtb (now - g_last_dex_price_fetch_time g)
                  (DEXSCREENER_PRICE_UPDATE_INTERVAL_SECONDS cfg)
             then (Normal (dex_price dex), set_last_dex_price_fetch_time now g)
             else (Normal None, g)).
Proof.
  intros recent. subst recent.
  pose proof (price_from_recent_trade_cases g) as Hc.
  assert (Hfall : price_from_recent_trade g = (Normal None, g) ->
    price_determination cfg now dex g
    = if gtb (now - g_last_dex_price_fetch_time g)
           (DEXSCREENER_PRICE_UPDATE_INTERVAL_SECONDS cfg)
      then (Normal (dex_price dex), set_last_dex_price_fetch_time now g)
      else (Normal None, g)).
  { intros Hn. unfold price_determination.
    unfold mbind, M_bind, get, modify, mret, M_ret. rewrite Hn. simpl.
    by destruct (gtb _ _). }
  destruct (last (g_latest_trade_data g)) as [t|];
    [destruct (gtb (amount t) 0) eqn:Hpos; [destruct Hc as [Hz Hc]|]|].
  - split; [eauto|]. split; [|split].
    + unfold price_determination.
      unfold mbind, M_bind, get, modify, mret, M_ret. rewrite Hc. simpl. eauto.
    + intros p Hp. rewrite Hc in Hp. simplify_eq. by exists t.
    + intros [|(t' & ? & ?)]; simplify_eq. congruence.
  - split; [eauto|]. split; [|split].
    + rewrite (Hfall Hc). case_match; by eexists _, _.
    + intros p Hp. rewrite Hc in Hp. discriminate Hp.
    + intros _. split; [done|]. by apply Hfall.
  - split; [eauto|]. split; [|split].
    + rewrite (Hfall Hc). case_match; by eexists _, _.
    + intros p Hp. rewrite Hc in Hp. discriminate Hp.
    + intros _. split; [done|]. by apply Hfall.
Qed.

(** No trade yet, then a trade with token amount 0: no price from the
    trades either time, and the fallback answers. *)
Lemma feed_price_zero_amount :
  let zero := {| amount := 0; solAmount := 1; side := "buy"; wallet := "w" |} in
  let g := set_feed [zero] None example_epoch in
  price_from_recent_trade example_epoch = (Normal None, example_epoch)
  /\ price_from_recent_trade g = (Normal None, g)
  /\ price_determination standard_config 1001
       (Some {| price := 1; buy_volume := 0; sell_volume := 0; buys := 0; sells := 0 |}) g
     = (Normal (Some 1), set_last_dex_price_fetch_time 1001 g).
Proof. repeat split. Qed.

(** ** The queue reader *)

Lemma last_eligible_cons py_float row rows :
  last_eligible py_float (row :: rows)
  = match last_eligible py_float rows with
    | Some t => Some t
    | None => if eligible py_float row then Some (target_of_row row) else None
    end.
Proof.
  unfold last_eligible. rewrite filter_cons. case_decide as Hel.
  - rewrite Hel, last_cons. by destruct (last (filter _ rows)).
  - apply not_true_is_false in Hel. rewrite Hel.
    by destruct (last (filter _ rows)).
Qed.

Lemma load_row_complete py_float row latest :
  py_float "" = None ->
  complete row ->
  load_row py_float row latest
  = inr (if eligible py_float row then Some (target_of_row row) else latest).
Proof.
  intros Hempty (Ha & Hp & Hp' & Hn).
  unfold load_row, eligible, target_of_row, row_address, row_price_impact,
    row_name, row_get, value_strip, mbind, csv_error_bind.
  destruct (fields row !! "Address") as [[a|]|]; [|done|];
  (destruct (fields row !! "Price_Impact_Cluster_Sell_Percent") as [[p|]|];
     [|done|destruct (fields row !! "Price_Impact_Cluster_Sell_Percent_")
               as [[p|]|]; [|done|]]);
  (destruct (fields row !! "Name") as [[n|]|]; [|done|]); simpl;
  change (strip "") with "" in *;
  repeat case_bool_decide; simplify_eq/=;
  repeat match goal with
  | H : ?s = "" |- context [py_float ?s] => rewrite H, Hempty
  | |- context [py_float ?s] => destruct (py_float s) as [v|]; simpl
  | |- context [?v <? PRICE_IMPACT_THRESHOLD_MONITOR] =>
      destruct (v <? PRICE_IMPACT_THRESHOLD_MONITOR); simpl
  end; try done; try congruence.
Qed.

Lemma load_rows_complete py_float rows latest :
  py_float "" = None ->
  Forall complete rows ->
  load_rows py_float rows latest
  = inr (match last_eligible py_float rows with
         | Some t => Some t
         | None => latest
         end).
Proof.
  intros Hempty Hrows. revert latest.
  induction Hrows as [|row rows Hrow _ IH]; intros latest; [done|].
  simpl. rewrite (load_row_complete _ _ _ Hempty Hrow).
  unfold mbind, csv_error_bind. rewrite IH, last_eligible_cons.
  by destruct (last_eligible py_float rows), (eligible py_float row).
Qed.

Lemma load_row_selects py_float row latest t :
  load_row py_float row latest = inr (Some t) ->
  Some t = latest \/ eligible py_float row = true.
Proof.
  unfold load_row, eligible, row_address, row_price_impact, row_get,
    value_strip, mbind, csv_error_bind.
  destruct (fields row !! "Address") as [[a|]|]; simpl; [|done|];
  (destruct (fields row !! "Price_Impact_Cluster_Sell_Percent") as [[p|]|];
     simpl; [|done|destruct (fields row !! "Price_Impact_Cluster_Sell_Percent_")
               as [[p|]|]; simpl; [|done|]]);
  change (strip "") with "" in *;
  repeat case_bool_decide; simplify_eq/=;
  repeat match goal with
  | |- context [py_float ?s] => destruct (py_float s) as [v|]; simpl
  | |- context [?v <? PRICE_IMPACT_THRESHOLD_MONITOR] =>
      destruct (v <? PRICE_IMPACT_THRESHOLD_MONITOR) eqn:?; simpl
  end; intros; simplify_eq/=; auto.
Qed.

Lemma load_rows_selects py_float rows latest t :
  load_rows py_float rows latest = inr (Some t) ->
  Some t = latest \/ ∃ row, row ∈ rows /\ eligible py_float row = true.
Proof.
  revert latest. induction rows as [|row rows IH]; intros latest; simpl.
  - intros [= <-]. by left.
  - unfold mbind, csv_error_bind.
    destruct (load_row py_float row latest) as [e|latest'] eqn:Hrow; [done|].
    intros Hrest. destruct (IH _ Hrest) as [<-|(row' & Hin & Hel)].
    + destruct (load_row_selects _ _ _ _ Hrow) as [?|?]; [by left|].
      right. exists row. split; [left|done].
    + right. exists row'. split; [by right|done].
Qed.

Lemma zipped_fields_strings (pairs : list (string * string))
    (d : gmap string (option string)) key :
  d !! key ≠ Some None ->
  foldl (fun d kv => <[kv.1 := Some kv.2]> d) d pairs !! key ≠ Some None.
Proof.
  revert d. induction pairs as [|[k v] pairs IH]; intros d Hd; simpl; [done|].
  apply IH. destruct (decide (k = key)) as [->|Hne].
  - by rewrite lookup_insert_eq.
  - by rewrite lookup_insert_ne.
Qed.

(** A record with at least as many fields as the header gives a complete
    row. *)
Lemma full_record_complete fieldnames record :
  length fieldnames <= length record ->
  complete (dict_of_record fieldnames record).
Proof.
  intros Hlen. unfold complete, dict_of_record.
  destruct (length fieldnames <? length record)%nat eqn:Hlt; simpl.
  - repeat split; by apply zipped_fields_strings.
  - apply Nat.ltb_ge in Hlt.
    replace (length record) with (length fieldnames) by lia.
    rewrite drop_all. simpl. repeat split; by apply zipped_fields_strings.
Qed.

(** On files whose rows are complete the loader selects as specified:
    when the file has a header with an [Address] column and every row
    holds a string in each field the loader reads, the loader returns the
    last row whose stripped address is not empty and whose price impact
    parses to a value below 65, as its stripped address with its stripped
    name, or the address when the name is empty; it returns nothing when
    the file cannot be read, is empty, has an empty header or none with
    [Address], or has no such row. *)
Theorem load_token_from_csv_last_eligible py_float file :
  py_float "" = None ->
  match file with
  | Some (fieldnames :: records) =>
      let rows := dict_rows fieldnames records in
      (fieldnames ≠ [] -> "Address" ∈ strip <$> fieldnames ->
       Forall complete rows ->
       load_token_from_csv py_float file = last_eligible py_float rows)
      /\ (fieldnames = [] \/ "Address" ∉ strip <$> fieldnames
          \/ (∀ row, row ∈ rows -> eligible py_float row = false) ->
          load_token_from_csv py_float file = None)
  | _ => load_token_from_csv py_float file = None
  end.
Proof.
  intros Hempty. destruct file as [[|fieldnames records]|]; [done| |done].
  simpl. split.
  - intros Hne Haddr Hrows.
    rewrite bool_decide_false by done.
    rewrite bool_decide_false by (intros Hn; by apply Hn).
    rewrite (load_rows_complete _ _ _ Hempty Hrows).
    by destruct (last_eligible _ _).
  - intros Hcase. repeat case_bool_decide; try done.
    destruct Hcase as [?|[?|Hnone]]; [done|done|].
    destruct (load_rows _ _ _) as [e|[t|]] eqn:Hload; [done| |done].
    apply load_rows_selects in Hload as [?|(row & Hin & Hel)]; [done|].
    rewrite (Hnone row Hin) in Hel. done.
Qed.

Lemma load_token_from_csv_last_eligible_witness :
  float_of_digits "" = None
  /\ load_token_from_csv float_of_digits example_queue = Some ("MINT", "MINT").
Proof.
  split; [reflexivity|].
  destruct (load_token_from_csv_last_eligible float_of_digits example_queue eq_refl)
    as [Hload _].
  rewrite Hload.
  - reflexivity.
  - discriminate.
  - vm_compute. apply list_elem_of_here.
  - repeat constructor; vm_compute; discriminate.
Defined.

Lemma load_row_short py_float row latest :
  fields row !! "Address" = Some None
  \/ fields row !! "Price_Impact_Cluster_Sell_Percent" = Some None ->
  load_row py_float row latest = inl AttributeError.
Proof.
  unfold load_row, row_get, value_strip, mbind, csv_error_bind.
  intros [Ha|Hp].
  - by rewrite Ha.
  - rewrite Hp. simpl. by destruct (fields row !! "Address") as [[a|]|].
Qed.

Lemma load_rows_short py_float rows row latest :
  row ∈ rows ->
  fields row !! "Address" = Some None
  \/ fields row !! "Price_Impact_Cluster_Sell_Percent" = Some None ->
  ∃ e, load_rows py_float rows latest = inl e.
Proof.
  intros Hin Hshort. revert latest.
  induction rows as [|other rows IH]; intros latest;
    [by apply elem_of_nil in Hin|].
  simpl. apply elem_of_cons in Hin as [<-|Hin].
  - rewrite (load_row_short _ _ _ Hshort). by eexists.
  - unfold mbind, csv_error_bind.
    destruct (load_row py_float other latest) as [e|latest']; [by eexists|].
    by apply IH.
Qed.

(** C7 (defect in the code): one short row makes the loader lose its
    target.  In a row that stops before the price-impact column (or
    before the address column) [csv.DictReader] stores [None] there; the
    loader calls [strip] on it outside its per-row handler, the
    [AttributeError] reaches the catch-all of the function, and the
    loader returns nothing, whatever the other rows are and whatever the
    parser: a row selected before the short one is discarded, where the
    last eligible row is to be returned. *)
Theorem short_row_discards_target py_float fieldnames records row :
  row ∈ dict_rows fieldnames records ->
  fields row !! "Address" = Some None
  \/ fields row !! "Price_Impact_Cluster_Sell_Percent" = Some None ->
  load_token_from_csv py_float (Some (fieldnames :: records)) = None.
Proof.
  intros Hin Hshort. unfold load_token_from_csv.
  repeat case_bool_decide; try done.
  by destruct (load_rows_short py_float _ _ None Hin Hshort) as [e ->].
Qed.

Lemma short_row_discards_target_witness :
  let short := dict_of_record queue_header ["A2"] in
  short ∈ dict_rows queue_header [["A1"; "first"; "10"]; ["A2"]]
  /\ fields short !! "Price_Impact_Cluster_Sell_Percent" = Some None
  /\ last_eligible float_of_digits
       (dict_rows queue_header [["A1"; "first"; "10"]; ["A2"]])
     = Some ("A1", "first")
  /\ load_token_from_csv float_of_digits short_row_queue = None.
Proof.
  assert (Hin : dict_of_record queue_header ["A2"]
                ∈ dict_rows queue_header [["A1"; "first"; "10"]; ["A2"]]).
  { apply list_elem_of_further, list_elem_of_here. }
  split; [exact Hin|]. split; [reflexivity|]. split; [reflexivity|].
  exact (short_row_discards_target float_of_digits queue_header
           [["A1"; "first"; "10"]; ["A2"]] _ Hin (or_intror eq_refl)).
Defined.

(** ** Results of the tasks in [main] *)

Lemma handle_results_keeps_queue results processed queue :
  Forall (fun r => ¬ is_completion r) results ->
  (handle_results results processed queue).2 = queue.
Proof.
  induction 1 as [|r results Hr _ IH]; simpl; [done|].
  destruct r; try done. exfalso. apply Hr. by eexists.
Qed.

Lemma raise_TokenProcessingComplete_exits h c :
  raise_TokenProcessingComplete h c = IsSystemExit 0
  \/ raise_TokenProcessingComplete h c = IsException "OSError".
Proof.
  unfold raise_TokenProcessingComplete, restart_sniperx_v2.
  destruct (log_ok h), (script_exists h), (popen_ok h); auto.
Qed.

Lemma trader_task_never_completion h r : ¬ is_completion (trader_task_result h r).
Proof.
  intros [c' Hc]. destruct r as [f|[c|]]; simpl in Hc; try done.
  destruct (raise_TokenProcessingComplete_exits h c) as [He|He];
    rewrite He in Hc; done.
Qed.

(** Whatever the other two tasks end with (they raise no
    [TokenProcessingComplete]), [main] leaves the queue file as it is. *)
Lemma main_never_removes h r listener checker processed queue :
  ¬ is_completion listener -> ¬ is_completion checker ->
  (handle_results [listener; trader_task_result h r; checker] processed queue).2
  = queue.
Proof.
  intros Hl Hc. apply handle_results_keeps_queue.
  repeat constructor; try done. apply trader_task_never_completion.
Qed.

(** A restart request or another failure, met first, keeps the row. *)
Lemma restart_or_failure_keeps_row results name processed queue :
  (handle_results (IsRestartRequired :: results) processed queue).2 = queue
  /\ (handle_results (IsException name :: results) processed queue).2 = queue.
Proof. done. Qed.

(** An instance of [TokenProcessingComplete] among the results would have
    its row removed. *)
Lemma delivered_completion_removes_row :
  handle_results
    [IsCancelledError;
     IsTokenProcessingComplete
       {| mint_address := "MINT"; reason := TakeProfit;
          buy_price := Some 1.02; sell_price := Some 1.15 |};
     IsCancelledError] (Some "MINT") example_queue
  = (Some completed,
     Some [queue_header; ["A1"; "first"; "10"]; ["A3"; "third"; "65"]]).
Proof. reflexivity. Qed.

(** C8, where the code departs from it: the run of the spec's scenario
    (baseline 1.00, buy at 1.02, take profit at 1.15) reaches
    [raise TokenProcessingComplete(...)]; on every host the task ends
    with [SystemExit] or with the logging error instead of an instance of
    the class, and the handling in [main] leaves the row of the target in
    the queue. *)
Theorem take_profit_leaves_row_in_queue h :
  let g := start_monitoring "MINT" "MINT" 1000 initial_globals in
  let r := (trade_logic_and_price_display_loop standard_config "MINT"
              take_profit_run g).1 in
  let handled := handle_results
                   [IsCancelledError; trader_task_result h r; IsCancelledError]
                   (Some "MINT") example_queue in
  load_token_from_csv float_of_digits example_queue = Some ("MINT", "MINT")
  /\ r = Raised (TokenProcessingComplete
           {| mint_address := "MINT"; reason := TakeProfit;
              buy_price := Some 1.02; sell_price := Some 1.15 |})
  /\ handled.1 ≠ Some completed
  /\ handled.2 = example_queue
  /\ queue_has "MINT" handled.2.
Proof.
  intros g r handled.
  assert (Hr : r = Raised (TokenProcessingComplete
           {| mint_address := "MINT"; reason := TakeProfit;
              buy_price := Some 1.02; sell_price := Some 1.15 |}))
    by reflexivity.
  assert (Hq : handled.2 = example_queue).
  { apply main_never_removes; intros [c Hc]; done. }
  split; [reflexivity|]. split; [exact Hr|]. split; [|split; [exact Hq|]].
  - subst handled. rewrite Hr. simpl.
    destruct (raise_TokenProcessingComplete_exits h
      {| mint_address := "MINT"; reason := TakeProfit;
         buy_price := Some 1.02; sell_price := Some 1.15 |}) as [He|He];
      rewrite He; done.
  - rewrite Hq. simpl.
    exists (dict_of_record queue_header [" MINT "; ""; "64"]).
    split; [|reflexivity].
    unfold dict_rows. apply list_elem_of_fmap_2.
    apply list_elem_of_filter. split; [done|].
    apply list_elem_of_further, list_elem_of_here.
Qed.

(** ** The lock file *)

Lemma str_of_pid_not_empty pid : str_of_pid pid ≠ "".
Proof.
  unfold str_of_pid, NilZero.string_of_uint.
  destruct (N.to_uint pid); simpl; discriminate.
Qed.

(** C9: [ProcessLock.release] and the removal in [main] take the lock
    file away only when the stripped owner text in it equals the decimal
    PID of the caller; with another owner the file stays as it is; and
    the file of the caller itself is removed (the lock being held and
    the file operations succeeding). *)
Theorem lock_released_by_owner_only pid read_ok remove_ok self created content :
  let released := (release pid read_ok remove_ok self (Some content)).2 in
  let removed := main_remove_lock pid read_ok remove_ok created (Some content) in
  (strip (readline content) ≠ str_of_pid pid -> released = Some content)
  /\ (released = None -> strip (readline content) = str_of_pid pid)
  /\ (released = None \/ released = Some content)
  /\ (lock_acquired self = true -> read_ok = true -> remove_ok = true ->
      strip (readline content) = str_of_pid pid -> released = None)
  /\ (strip content ≠ str_of_pid pid -> removed = Some content)
  /\ (removed = None -> strip content = str_of_pid pid)
  /\ (removed = None \/ removed = Some content)
  /\ (created = true -> read_ok = true -> remove_ok = true ->
      strip content = str_of_pid pid -> removed = None).
Proof.
  pose proof (str_of_pid_not_empty pid) as Hne.
  unfold release, main_remove_lock.
  destruct (lock_acquired self), read_ok, remove_ok, created; simpl;
    repeat case_bool_decide; simpl; repeat split; intros; try done; auto;
    congruence.
Qed.

(** The lock of process 4242 stays under [release] by process 1234, and
    goes under [release] by process 4242. *)
Lemma release_example :
  release 1234 true true {| lock_acquired := true |} (Some example_lock_content)
  = ({| lock_acquired := false |}, Some example_lock_content)
  /\ release 4242 true true {| lock_acquired := true |} (Some example_lock_content)
     = ({| lock_acquired := false |}, None)
  /\ main_remove_lock 1234 true true true (Some "4242"%string) = Some "4242"%string
  /\ main_remove_lock 4242 true true true (Some "4242"%string) = None.
Proof. repeat split. Qed.

(** * Further properties *)

(** ** The decision loop *)

Lemma evaluate_baseline cfg mint now usd g :
  g_baseline_price_usd (evaluate cfg mint now usd g).2
  = match g_baseline_price_usd g with
    | Some B => Some B
    | None => usd
    end.
Proof.
  unfold_checks. open_state g. destruct base, usd; simpl; split_cases; done.
Qed.

Lemma evaluate_waits_for_price cfg mint now g :
  g_baseline_price_usd g = None ->
  evaluate cfg mint now None g = (Normal tt, g).
Proof. intros H. unfold_checks. open_state g. done. Qed.

(** The baseline of an epoch is its first price: over any run of
    evaluations a baseline that is set stays as it is, and one that is
    unset becomes the first price the run sees, if any. *)
Theorem baseline_is_first_price cfg mint ticks g :
  g_baseline_price_usd (evaluations cfg mint ticks g)
  = match g_baseline_price_usd g with
    | Some B => Some B
    | None => first_price ticks
    end.
Proof.
  revert g. induction ticks as [|[now usd] rest IH]; intros g; simpl.
  - unfold first_price. simpl. by destruct (g_baseline_price_usd g).
  - pose proof (evaluate_baseline cfg mint now usd g) as Hb.
    destruct (evaluate cfg mint now usd g) as [[[]|e] g1] eqn:Hev; simpl in Hb.
    + rewrite IH, Hb. unfold first_price. simpl.
      destruct (g_baseline_price_usd g); [done|]. by destruct usd.
    + rewrite Hb. unfold first_price. simpl.
      destruct (g_baseline_price_usd g) eqn:HB; [done|]. destruct usd; [done|].
      by rewrite (evaluate_waits_for_price _ _ _ _ HB) in Hev.
Qed.

(** An evaluation without a price changes nothing in the state: it can
    only end the epoch. *)
Theorem evaluation_without_price_keeps_state cfg mint now g :
  (evaluate cfg mint now None g).2 = g.
Proof. unfold_checks. open_state g. split_cases. Qed.

Lemma price_determination_state cfg now dex g :
  (price_determination cfg now dex g).2 = g
  \/ (price_determination cfg now dex g).2 = set_last_dex_price_fetch_time now g.
Proof.
  pose proof (price_from_recent_trade_cases g) as Hc.
  unfold price_determination. unfold mbind, M_bind, get, modify, mret, M_ret.
  destruct (last (g_latest_trade_data g)) as [t|];
    [destruct (gtb (amount t) 0); [destruct Hc as [_ Hc]|]|];
    rewrite Hc; simpl; try (by left); destruct (gtb _ _); auto.
Qed.

Lemma evaluate_frame cfg mint now usd g :
  let g' := (evaluate cfg mint now usd g).2 in
  g_token_start_time g' = g_token_start_time g
  /\ g_current_mint_address g' = g_current_mint_address g
  /\ g_token_name g' = g_token_name g
  /\ g_last_known_sol_price g' = g_last_known_sol_price g
  /\ g_latest_trade_data g' = g_latest_trade_data g
  /\ g_last_dex_price_fetch_time g' = g_last_dex_price_fetch_time g.
Proof. unfold_checks. open_state g. split_cases. Qed.

Lemma price_determination_normal cfg now dex g :
  ∃ usd g1,
    price_determination cfg now dex g = (Normal usd, g1)
    /\ (g1 = g \/ g1 = set_last_dex_price_fetch_time now g).
Proof.
  pose proof (price_from_recent_trade_cases g) as Hc.
  unfold price_determination. unfold mbind, M_bind, get, modify, mret, M_ret.
  destruct (last (g_latest_trade_data g)) as [t|];
    [destruct (gtb (amount t) 0); [destruct Hc as [_ Hc]|]|];
    rewrite Hc; simpl; try (by eexists _, _; split; [done|left]);
    destruct (gtb _ _); eexists _, _; (split; [done|]); auto.
Qed.

Lemma trade_logic_iteration_cases cfg mint i g :
  (g_current_mint_address g ≠ Some mint
   /\ trade_logic_iteration cfg mint i g = (Normal Return, g))
  \/ ∃ usd g1,
       (g1 = g \/ g1 = set_last_dex_price_fetch_time (current_time i) g)
       /\ price_determination cfg (current_time i) (dex_answer i) g = (Normal usd, g1)
       /\ trade_logic_iteration cfg mint i g
          = match evaluate cfg mint (current_time i) usd g1 with
            | (Normal _, g2) => (Normal Continue, g2)
            | (Raised e, g2) => (Raised e, g2)
            end.
Proof.
  destruct (decide (g_current_mint_address g = Some mint)) as [Heq|Hne].
  - right.
    destruct (price_determination_normal cfg (current_time i) (dex_answer i) g)
      as (usd & g1 & Hp & Hg1).
    exists usd, g1. split; [done|]. split; [done|].
    unfold trade_logic_iteration, mbind, M_bind, get, mret, M_ret.
    rewrite bool_decide_false by (intros Hn; by apply Hn).
    rewrite Hp.
    by destruct (evaluate cfg mint (current_time i) usd g1) as [[[]|e] g2].
  - left. split; [done|].
    unfold trade_logic_iteration, mbind, M_bind, get, mret, M_ret.
    by rewrite bool_decide_true.
Qed.

Lemma trade_logic_iteration_frame cfg mint i g :
  let g' := (trade_logic_iteration cfg mint i g).2 in
  g_token_start_time g' = g_token_start_time g
  /\ g_current_mint_address g' = g_current_mint_address g
  /\ g_token_name g' = g_token_name g
  /\ g_last_known_sol_price g' = g_last_known_sol_price g
  /\ g_latest_trade_data g' = g_latest_trade_data g.
Proof.
  intros g'. subst g'.
  destruct (trade_logic_iteration_cases cfg mint i g)
    as [[_ ->]|(usd & g1 & Hg1 & _ & ->)]; [done|].
  pose proof (evaluate_frame cfg mint (current_time i) usd g1) as Hf.
  destruct (evaluate cfg mint (current_time i) usd g1) as [[[]|e] g2]; simpl in *;
    destruct Hg1 as [->| ->]; simpl in *; tauto.
Qed.

Lemma decision_loop_cons cfg mint j rest g :
  trade_logic_and_price_display_loop cfg mint (j :: rest) g
  = match trade_logic_iteration cfg mint j
            (set_feed (new_trades j) (new_sol_price j) g) with
    | (Normal Continue, g2) => trade_logic_and_price_display_loop cfg mint rest g2
    | (Normal Return, g2) => (Normal Return, g2)
    | (Raised e, g2) => (Raised e, g2)
    end.
Proof.
  simpl. unfold mbind, M_bind, modify, mret, M_ret.
  by destruct (trade_logic_iteration cfg mint j _) as [[[]|e] g2].
Qed.

(** The decision task writes neither the start time, the bound token nor
    its name, over any run of its loop; and one pass of its body leaves
    the trade buffer and the SOL rate to the tasks that own them. *)
Theorem decision_loop_frame cfg mint inputs i g :
  let g' := (trade_logic_and_price_display_loop cfg mint inputs g).2 in
  let g1 := (trade_logic_iteration cfg mint i g).2 in
  (g_token_start_time g' = g_token_start_time g
   /\ g_current_mint_address g' = g_current_mint_address g
   /\ g_token_name g' = g_token_name g)
  /\ (g_latest_trade_data g1 = g_latest_trade_data g
      /\ g_last_known_sol_price g1 = g_last_known_sol_price g).
Proof.
  intros g' g1. subst g' g1. split.
  - revert g. induction inputs as [|j rest IH]; intros g; [done|].
    rewrite decision_loop_cons.
    pose proof (trade_logic_iteration_frame cfg mint j
      (set_feed (new_trades j) (new_sol_price j) g)) as (H1 & H2 & H3 & _).
    destruct (trade_logic_iteration cfg mint j _) as [[[]|e] g2]; simpl in *;
      [|done|done].
    destruct (IH g2) as (? & ? & ?). repeat split; congruence.
  - pose proof (trade_logic_iteration_frame cfg mint i g) as (_ & _ & _ & ? & ?).
    done.
Qed.

(** ** States of an epoch *)

Lemma deque_append_bound x d :
  length d ≤ 100 -> length (deque_append x d) ≤ 100.
Proof.
  intros Hd. unfold deque_append.
  destruct (length d <? 100)%nat eqn:Hlt.
  - apply Nat.ltb_lt in Hlt. rewrite length_app. simpl. lia.
  - rewrite length_app. destruct d; simpl in *; lia.
Qed.

Lemma set_feed_bound trades sol g :
  length (g_latest_trade_data g) ≤ 100 ->
  length (g_latest_trade_data (set_feed trades sol g)) ≤ 100.
Proof.
  simpl. generalize (g_latest_trade_data g).
  induction trades as [|x trades IH]; intros d Hd; simpl; [done|].
  apply IH. by apply deque_append_bound.
Qed.

Ltac close_consistent :=
  repeat split; intros; simplify_eq/=; try done;
  try (match goal with H : is_Some None |- _ => by destruct H end);
  try (by eexists);
  try (by eexists _, _; repeat split);
  auto.

Lemma evaluate_consistent cfg mint now usd g g' :
  epoch_consistent cfg g ->
  evaluate cfg mint now usd g = (Normal tt, g') ->
  epoch_consistent cfg g'.
Proof.
  unfold epoch_consistent. intros (Hst & Hbp & Hh & Ht & Hlen) Hev.
  pose proof (evaluate_frame cfg mint now usd g) as (_ & _ & _ & _ & Hd & _).
  rewrite Hev in Hd. simpl in Hd. rewrite Hd. clear Hd.
  revert Hev. unfold_checks. unfold price_above. open_state g.
  destruct sig.
  - destruct (Hh eq_refl) as (b & x & ? & ? & ? & ? & ?); simplify_eq/=.
    assert (st = bought) as -> by by apply Hst.
    clear Hst Hbp Hh.
    split_cases; intros; simplify_eq/=; close_consistent.
  - assert (st = monitoring) as ->.
    { destruct st; [done|]. discriminate (proj1 Hst eq_refl). }
    assert (buy = None) as ->.
    { destruct buy; [|done]. discriminate (proj1 Hbp (mk_is_Some _ _ eq_refl)). }
    clear Hst Hbp Hh.
    split_cases; intros; simplify_eq/=; close_consistent.
Qed.

(** Every state of a running epoch is consistent: the status is [bought]
    exactly when a buy signal was detected, and exactly then is there a
    buy price; that price exceeded the baseline by the buy margin and
    would itself trigger neither take profit nor stop loss; a running
    stagnation timer has a baseline; the buffer holds at most 100
    trades. *)
Theorem epoch_states_consistent cfg mint g :
  epoch_state cfg mint g -> epoch_consistent cfg g.
Proof.
  induction 1 as [now g|trades sol g _ IH|now usd g g' _ IH Hev|i g g' _ IH Hit].
  - unfold epoch_consistent. simpl. close_consistent. lia.
  - destruct IH as (? & ? & ? & ? & Hlen).
    repeat split; try done; try tauto. by apply set_feed_bound.
  - by eapply evaluate_consistent.
  - destruct (trade_logic_iteration_cases cfg mint i g)
      as [[_ Hr]|(usd & g1 & Hg1 & _ & Hr)]; rewrite Hr in Hit; [done|].
    destruct (evaluate cfg mint (current_time i) usd g1) as [[[]|e] g2] eqn:Hev;
      [|done].
    simplify_eq. eapply evaluate_consistent; [|exact Hev].
    by destruct Hg1 as [->| ->].
Qed.

Lemma epoch_states_consistent_witness :
  let g := evaluations standard_config "MINT"
             [(1001, Some 1); (1002, Some 1.02)] example_epoch in
  epoch_state standard_config "MINT" g
  /\ epoch_consistent standard_config g.
Proof.
  assert (H : epoch_state standard_config "MINT"
                (evaluations standard_config "MINT"
                   [(1001, Some 1); (1002, Some 1.02)] example_epoch)).
  { apply (epoch_evaluate _ _ 1002 (Some 1.02)
             (evaluations standard_config "MINT" [(1001, Some 1)] example_epoch));
      [|reflexivity].
    apply (epoch_evaluate _ _ 1001 (Some 1) example_epoch); [|reflexivity].
    apply (epoch_reset _ _ 1000). }
  split; [exact H|]. exact (epoch_states_consistent _ _ _ H).
Defined.

(** What an evaluation logs when it ends the epoch: the token of the
    task and the price of the tick as sell price; the buy price only
    with take profit and stop loss, which need a detected buy signal and
    a price; the no-buy-signal timeout only without a buy signal;
    stagnation only with a price and a running timer, and its no-data
    form only without a price and with the timer unset.  The baseline is
    set in every case, and division by zero is never what ends it. *)
Theorem completion_record cfg mint now usd g :
  let r := evaluate cfg mint now usd g in
  r.1 ≠ Raised ZeroDivisionError
  /\ ∀ c, r.1 = Raised (TokenProcessingComplete c) ->
       mint_address c = mint
       /\ sell_price c = usd
       /\ is_Some (g_baseline_price_usd r.2)
       /\ match reason c with
          | TakeProfit | StopLoss =>
              g_buy_signal_detected r.2 = true
              /\ is_Some (buy_price c)
              /\ buy_price c = g_buy_price_usd r.2
              /\ is_Some usd
          | NoBuySignalTimeout =>
              g_buy_signal_detected r.2 = false /\ buy_price c = None
          | Stagnation =>
              buy_price c = None /\ is_Some usd
              /\ is_Some (g_stagnation_timer_start r.2)
          | StagnationNoData =>
              buy_price c = None /\ usd = None
              /\ g_stagnation_timer_start r.2 = None
          end.
Proof.
  intros r. subst r. split.
  - unfold_checks. unfold price_above. open_state g. split_cases; done.
  - intros c. unfold_checks. unfold price_above. open_state g.
    split_cases; intros; simplify_eq/=; repeat split; try done; try by eexists.
    all: try (match goal with H : bool_decide _ && _ = true |- _ =>
      apply andb_prop in H as [H%bool_decide_eq_true ?] end; done).
    all: by destruct sig.
Qed.

(** ** Prices *)

(** The trade feed comes first and Dexscreener is rate limited: when the
    most recent trade has a token amount above zero the price of the tick
    is its quotient times the SOL rate, whatever Dexscreener would
    answer, and nothing is written; when the last request is not older
    than the interval Dexscreener is not asked either; and in every case
    the only global written is the time of the last request, set to the
    time of the tick. *)
Theorem price_determination_sources cfg now dex g :
  (∀ t, last (g_latest_trade_data g) = Some t -> gtb (amount t) 0 = true ->
     price_determination cfg now dex g
     = (Normal (Some (solAmount t / amount t * g_last_known_sol_price g)), g))
  /\ (gtb (now - g_last_dex_price_fetch_time g)
          (DEXSCREENER_PRICE_UPDATE_INTERVAL_SECONDS cfg) = false ->
      price_determination cfg now dex g = price_from_recent_trade g)
  /\ ((price_determination cfg now dex g).2 = g
      \/ (price_determination cfg now dex g).2
         = set_last_dex_price_fetch_time now g).
Proof.
  pose proof (price_from_recent_trade_cases g) as Hc.
  split; [|split].
  - intros t Ht Hpos. rewrite Ht, Hpos in Hc. destruct Hc as [_ Hc].
    unfold price_determination. unfold mbind, M_bind, get, modify, mret, M_ret.
    by rewrite Hc.
  - intros Hold.
    unfold price_determination. unfold mbind, M_bind, get, modify, mret, M_ret.
    destruct (last (g_latest_trade_data g)) as [t|];
      [destruct (gtb (amount t) 0); [destruct Hc as [_ Hc]|]|];
      rewrite Hc; simpl; by rewrite ?Hold.
  - apply price_determination_state.
Qed.

(** ** The SOL rate *)

Lemma sol_price_pass_cases primary secondary last_known :
  sol_price_pass primary secondary last_known = last_known
  \/ (gtb (sol_price_pass primary secondary last_known) 0 = true
      /\ (primary = Quoted (sol_price_pass primary secondary last_known)
          \/ (quoted_price primary = Some None
              /\ secondary
                 = Quoted (sol_price_pass primary secondary last_known)))).
Proof.
  unfold sol_price_pass, quoted_price.
  destruct primary as [| |v]; [destruct secondary as [| |w]| |]; auto.
  - destruct (float_truthy w); auto.
    destruct (gtb w 0) eqn:Hw; auto. destruct (negb _); auto.
  - destruct (float_truthy v).
    + destruct (gtb v 0) eqn:Hv; auto. destruct (negb _); auto.
    + destruct secondary as [| |w]; auto.
      destruct (float_truthy w); auto.
      destruct (gtb w 0) eqn:Hw; auto. destruct (negb _); auto.
Qed.

(** The SOL rate stays above zero and is only ever a quoted price:
    whatever the two sources answer, over any number of passes of the
    updater, a rate above zero (as the initial 155.0 is) is above zero
    afterwards, and it is either the rate before or a price above zero
    that one of the passes was quoted, by the first source or, when the
    first source gave no price, by the second. *)
Theorem sol_price_stays_positive passes last_known :
  gtb last_known 0 = true ->
  let rate := periodic_sol_price_updater passes last_known in
  gtb rate 0 = true
  /\ (rate = last_known
      \/ ∃ pass, pass ∈ passes
           /\ (pass.1 = Quoted rate
               \/ (quoted_price pass.1 = Some None /\ pass.2 = Quoted rate))).
Proof.
  unfold periodic_sol_price_updater. revert last_known.
  induction passes as [|[primary secondary] passes IH]; intros rate Hrate;
    [by split; [|left]|].
  cbn [foldl fst snd].
  destruct (sol_price_pass_cases primary secondary rate) as [Hsame|[Hpos Hfrom]].
  - rewrite Hsame. destruct (IH rate Hrate) as [Hp [Hr|(pass & Hin & Hq)]].
    + split; [done|by left].
    + split; [done|]. right. exists pass. split; [by right|done].
  - destruct (IH _ Hpos) as [Hp [Hr|(pass & Hin & Hq)]].
    + split; [done|]. right. exists (primary, secondary).
      split; [left|]. cbn [fst snd]. by rewrite Hr.
    + split; [done|]. right. exists pass. split; [by right|done].
Qed.

Lemma sol_price_stays_positive_witness :
  let passes := [(Quoted (-3), Quoted 150); (NoAnswer, Quoted 0);
                 (Unreadable, Quoted 170); (NoAnswer, Quoted 160.5)] in
  gtb (g_last_known_sol_price initial_globals) 0 = true
  /\ periodic_sol_price_updater passes (g_last_known_sol_price initial_globals)
     = 160.5
  /\ gtb (periodic_sol_price_updater passes
            (g_last_known_sol_price initial_globals)) 0 = true.
Proof.
  split; [reflexivity|]. split; [reflexivity|].
  exact (proj1 (sol_price_stays_positive
    [(Quoted (-3), Quoted 150); (NoAnswer, Quoted 0);
     (Unreadable, Quoted 170); (NoAnswer, Quoted 160.5)]
    (g_last_known_sol_price initial_globals) eq_refl)).
Defined.

(** ** Strings *)

Lemma app_cons a (s t : string) : String a s +:+ t = String a (s +:+ t).
Proof. reflexivity. Qed.

Lemma app_empty_r (s : string) : s +:+ "" = s.
Proof. induction s as [|a s IH]; [done|]. by rewrite app_cons, IH. Qed.

Lemma app_assoc_string (s t u : string) : (s +:+ t) +:+ u = s +:+ (t +:+ u).
Proof. induction s as [|a s IH]; [done|]. by rewrite !app_cons, IH. Qed.

Lemma rev_app_acc s acc : String.rev_app s acc = String.rev s +:+ acc.
Proof.
  unfold String.rev. revert acc. induction s as [|a s IH]; intros acc; [done|].
  simpl. rewrite (IH (String a acc)), (IH (String a "")).
  by rewrite app_assoc_string.
Qed.

Lemma rev_cons a s : String.rev (String a s) = String.rev s +:+ String a "".
Proof. unfold String.rev at 1. simpl. apply rev_app_acc. Qed.

Lemma rev_app_string s t : String.rev (s +:+ t) = String.rev t +:+ String.rev s.
Proof.
  induction s as [|a s IH].
  - by rewrite app_empty_r.
  - by rewrite app_cons, !rev_cons, IH, app_assoc_string.
Qed.

Lemma rev_involutive_string s : String.rev (String.rev s) = s.
Proof.
  induction s as [|a s IH]; [done|].
  by rewrite rev_cons, rev_app_string, IH.
Qed.

Lemma all_chars_app p s t :
  all_chars p (s +:+ t) = all_chars p s && all_chars p t.
Proof.
  induction s as [|a s IH]; [done|].
  rewrite app_cons. simpl. rewrite IH. by destruct (p a).
Qed.

Lemma all_chars_rev p s : all_chars p (String.rev s) = all_chars p s.
Proof.
  induction s as [|a s IH]; [done|].
  rewrite rev_cons, all_chars_app, IH. simpl. by destruct (p a), (all_chars p s).
Qed.

(** A string starts well when it is empty or starts with a character
    that [strip] keeps. *)
Lemma lstrip_fixed s :
  match s with String a _ => py_isspace a = false | EmptyString => True end ->
  lstrip s = s.
Proof. destruct s as [|a s]; [done|]. simpl. by intros ->. Qed.

Lemma lstrip_starts_well s :
  match lstrip s with String a _ => py_isspace a = false | EmptyString => True end.
Proof.
  induction s as [|a s IH]; [done|]. simpl.
  destruct (py_isspace a) eqn:Ha; [done|]. done.
Qed.

Lemma lstrip_suffix s : ∃ w, s = w +:+ lstrip s.
Proof.
  induction s as [|a s [w IH]]; [by exists ""|]. simpl.
  destruct (py_isspace a).
  - exists (String a w). by rewrite app_cons, <-IH.
  - by exists "".
Qed.

Lemma strip_ends_well s :
  match String.rev (strip s) with
  | String a _ => py_isspace a = false
  | EmptyString => True
  end.
Proof.
  unfold strip. rewrite rev_involutive_string. apply lstrip_starts_well.
Qed.

Lemma strip_starts_well s :
  match strip s with String a _ => py_isspace a = false | EmptyString => True end.
Proof.
  unfold strip.
  pose proof (lstrip_starts_well s) as Ht.
  destruct (lstrip_suffix (String.rev (lstrip s))) as [w Hw].
  set (u := lstrip (String.rev (lstrip s))) in *.
  assert (Hrev : lstrip s = String.rev u +:+ String.rev w).
  { by rewrite <-rev_app_string, <-Hw, rev_involutive_string. }
  destruct (String.rev u) as [|a r]; [done|].
  rewrite Hrev in Ht. by rewrite app_cons in Ht.
Qed.

Lemma strip_idempotent s : strip (strip s) = strip s.
Proof.
  unfold strip at 1.
  rewrite (lstrip_fixed _ (strip_starts_well s)).
  rewrite (lstrip_fixed _ (strip_ends_well s)).
  apply rev_involutive_string.
Qed.

Lemma no_space_starts_well s :
  all_chars (fun a => negb (py_isspace a)) s = true ->
  match s with String a _ => py_isspace a = false | EmptyString => True end.
Proof.
  destruct s as [|a s]; [done|]. simpl. by destruct (py_isspace a).
Qed.

Lemma strip_no_space s :
  all_chars (fun a => negb (py_isspace a)) s = true -> strip s = s.
Proof.
  intros Hs. unfold strip.
  rewrite (lstrip_fixed s) by by apply no_space_starts_well.
  rewrite lstrip_fixed.
  - apply rev_involutive_string.
  - apply no_space_starts_well. by rewrite all_chars_rev.
Qed.

Lemma all_chars_impl (p q : ascii -> bool) s :
  (∀ a, p a = true -> q a = true) ->
  all_chars p s = true -> all_chars q s = true.
Proof.
  intros Hpq. induction s as [|a s IH]; [done|]. simpl.
  intros [Ha Hs]%andb_prop. by rewrite (Hpq a Ha), IH.
Qed.

Lemma digit_no_space a : is_digit a = true -> negb (py_isspace a) = true.
Proof.
  unfold is_digit, py_isspace. intros H.
  apply andb_prop in H as [H1%N.leb_le H2%N.leb_le].
  apply negb_true_iff.
  repeat (apply orb_false_iff; split); try apply andb_false_iff;
    rewrite ?N.leb_gt, ?N.eqb_neq; lia.
Qed.

Lemma digit_no_line_end a :
  is_digit a = true -> a ≠ "010"%char /\ a ≠ "013"%char.
Proof. unfold is_digit. split; intros ->; done. Qed.

Lemma strip_digits s : all_chars is_digit s = true -> strip s = s.
Proof.
  intros Hs. apply strip_no_space.
  revert Hs. apply all_chars_impl, digit_no_space.
Qed.

Lemma readline_digits s rest :
  all_chars is_digit s = true ->
  readline (s +:+ String "010"%char rest) = s +:+ String "010"%char "".
Proof.
  induction s as [|a s IH]; [done|]. simpl.
  intros [Ha Hs]%andb_prop. rewrite !app_cons. simpl.
  destruct (digit_no_line_end a Ha) as [H1 H2].
  rewrite !bool_decide_false by done. simpl. by rewrite IH.
Qed.

Lemma strip_line s :
  all_chars is_digit s = true -> strip (s +:+ String "010"%char "") = s.
Proof.
  intros Hs. destruct s as [|a s]; [reflexivity|].
  unfold strip.
  rewrite (lstrip_fixed (String a s +:+ String "010"%char "")).
  - rewrite rev_app_string.
    change (String.rev (String "010"%char "")) with (String "010"%char "").
    rewrite app_cons. simpl.
    change ("" +:+ String.rev (String a s)) with (String.rev (String a s)).
    rewrite lstrip_fixed.
    + apply rev_involutive_string.
    + apply no_space_starts_well. rewrite all_chars_rev.
      revert Hs. apply all_chars_impl, digit_no_space.
  - rewrite app_cons. simpl in Hs.
    apply andb_prop in Hs as [Ha _]. apply digit_no_space in Ha.
    by destruct (py_isspace a).
Qed.

Lemma string_of_uint_digits d :
  all_chars is_digit (NilEmpty.string_of_uint d) = true.
Proof. induction d; simpl; done. Qed.

Lemma str_of_pid_digits pid : all_chars is_digit (str_of_pid pid) = true.
Proof.
  unfold str_of_pid, NilZero.string_of_uint.
  destruct (N.to_uint pid) eqn:Hd; try done;
    rewrite <-Hd; apply string_of_uint_digits.
Qed.

Lemma to_uint_not_nil pid : N.to_uint pid ≠ Decimal.Nil.
Proof.
  destruct pid as [|p]; [done|]. apply DecimalPos.Unsigned.to_uint_nonnil.
Qed.

Lemma str_of_pid_inj pid pid' : str_of_pid pid = str_of_pid pid' -> pid = pid'.
Proof.
  unfold str_of_pid. intros Heq.
  apply DecimalN.Unsigned.to_uint_inj.
  pose proof (NilZero.usu _ (to_uint_not_nil pid)) as H1.
  pose proof (NilZero.usu _ (to_uint_not_nil pid')) as H2.
  rewrite Heq in H1. congruence.
Qed.

(** ** The queue writer *)

Lemma rows_to_keep_spec mint rows keep found :
  rows_to_keep mint rows = inr (keep, found) ->
  keep = filter (fun row => row_address row ≠ mint) rows
  /\ (found = true ↔ mint ∈ row_address <$> rows).
Proof.
  revert keep found. induction rows as [|row rows IH]; intros keep found; simpl.
  - intros [= <- <-]. split; [done|]. split; [done|]. by intros ?%elem_of_nil.
  - unfold mbind, csv_error_bind, value_strip.
    destruct (row_get "Address" (Some "") row) as [s|] eqn:Hs; [|done]. simpl.
    assert (Ha : row_address row = strip s) by (unfold row_address; by rewrite Hs).
    destruct (rows_to_keep mint rows) as [e|[keep' found']] eqn:Hrest; [done|].
    destruct (IH _ _ eq_refl) as [-> Hfound].
    rewrite filter_cons, Ha.
    case_bool_decide as Heq; intros [= <- <-].
    + case_decide; [done|].
      split; [done|]. split; [intros _; rewrite Heq; left|done].
    + case_decide; [|done]. split; [done|].
      rewrite Hfound. split; [by right|].
      intros [?|?]%elem_of_cons; [congruence|done].
Qed.

Lemma rows_to_keep_absent mint rows :
  mint ∉ row_address <$> rows ->
  match rows_to_keep mint rows with
  | inr (_, found) => found = false
  | inl _ => True
  end.
Proof.
  intros Hn. destruct (rows_to_keep mint rows) as [e|[keep found]] eqn:Hr; [done|].
  destruct (rows_to_keep_spec _ _ _ _ Hr) as [_ Hf].
  destruct found; [|done]. by destruct Hn; apply Hf.
Qed.

Lemma zipped_lookup (f : string -> string) hs
    (d : gmap string (option string)) key :
  foldl (fun d kv => <[kv.1 := Some kv.2]> d) d (zip hs (f <$> hs)) !! key
  = if decide (key ∈ hs) then Some (Some (f key)) else d !! key.
Proof.
  revert d. induction hs as [|h hs IH]; intros d.
  - done.
  - cbn [zip zip_with fmap list_fmap foldl]. rewrite IH. simpl.
    destruct (decide (key ∈ hs)) as [Hin|Hnin].
    + case_decide as Hc; [done|]. destruct Hc. by right.
    + destruct (decide (h = key)) as [->|Hne].
      * rewrite lookup_insert_eq. case_decide as Hc; [done|]. destruct Hc. left.
      * rewrite lookup_insert_ne by done. case_decide as Hc; [|done].
        apply elem_of_cons in Hc as [?|?]; congruence.
Qed.

Lemma written_record_address headers row record :
  "Address" ∈ headers ->
  dict_to_list headers row = Some record ->
  record ≠ []
  /\ row_address (dict_of_record headers record) = row_address row.
Proof.
  intros Hin. unfold dict_to_list.
  destruct (restkey row); [done|]. intros [= <-]. split.
  - destruct headers; [by apply elem_of_nil in Hin|done].
  - unfold row_address, row_get, dict_of_record.
    rewrite length_fmap, Nat.ltb_irrefl, drop_all. simpl.
    rewrite zipped_lookup. case_decide; [|done]. simpl.
    by destruct (fields row !! "Address") as [[s|]|].
Qed.

Lemma writerows_addresses headers rows written :
  "Address" ∈ headers ->
  writerows headers rows = (written, true) ->
  row_address <$> dict_rows headers written = row_address <$> rows.
Proof.
  intros Hin. revert written.
  induction rows as [|row rows IH]; intros written; simpl.
  - by intros [= <-].
  - destruct (dict_to_list headers row) as [record|] eqn:Hrec; [|done].
    destruct (writerows headers rows) as [written' ok] eqn:Hrest.
    intros [= <- ->].
    destruct (written_record_address _ _ _ Hin Hrec) as [Hne Haddr].
    unfold dict_rows in *. rewrite filter_cons. case_decide; [|done].
    simpl. by rewrite Haddr, IH.
Qed.

Lemma addresses_filter mint (rows : list row_dict) :
  row_address <$> filter (fun row => row_address row ≠ mint) rows
  = filter (fun address => address ≠ mint) (row_address <$> rows).
Proof.
  induction rows as [|row rows IH]; [done|].
  rewrite fmap_cons, !filter_cons.
  case_decide; [|done]. by rewrite fmap_cons, IH.
Qed.

Lemma remove_success mint file file' :
  remove_token_from_csv (Some mint) file = (file', true) ->
  ∃ headers records written,
    file = Some (headers :: records)
    /\ file' = Some (headers :: written)
    /\ mint ≠ "" /\ "Address" ∈ headers
    /\ rows_to_keep mint (dict_rows headers records)
       = inr (filter (fun row => row_address row ≠ mint)
                (dict_rows headers records), true)
    /\ writerows headers
         (filter (fun row => row_address row ≠ mint) (dict_rows headers records))
       = (written, true).
Proof.
  unfold remove_token_from_csv.
  destruct mint as [|a mint]; [by destruct file|].
  destruct file as [[|headers records]|]; [done| |done].
  case_bool_decide; [done|]. case_bool_decide as Hin; [done|].
  destruct (rows_to_keep _ _) as [e|[keep [|]]] eqn:Hkeep; [done| |done].
  destruct (writerows headers keep) as [written ok] eqn:Hw.
  intros [= <- ->].
  destruct (rows_to_keep_spec _ _ _ _ Hkeep) as [-> _].
  by exists headers, records, written.
Qed.

Lemma remove_success_addresses mint file file' :
  remove_token_from_csv (Some mint) file = (file', true) ->
  queue_addresses file'
  = filter (fun address => address ≠ mint) (queue_addresses file).
Proof.
  intros (headers & records & written & -> & -> & _ & Hin & _ & Hw)%remove_success.
  unfold queue_addresses.
  rewrite (writerows_addresses _ _ _ Hin Hw).
  apply addresses_filter.
Qed.

(** A successful removal takes away exactly the rows of the address: the
    header stays, the address was there and is no empty string, and the
    addresses of the rows afterwards are those before without it, in the
    same order. *)
Theorem remove_token_from_csv_removes mint file file' :
  remove_token_from_csv (Some mint) file = (file', true) ->
  mint ≠ ""
  /\ mint ∈ queue_addresses file
  /\ queue_addresses file'
     = filter (fun address => address ≠ mint) (queue_addresses file)
  /\ ∃ headers records records',
       file = Some (headers :: records) /\ file' = Some (headers :: records').
Proof.
  intros Hrm. pose proof (remove_success_addresses _ _ _ Hrm) as Haddr.
  destruct (remove_success _ _ _ Hrm)
    as (headers & records & written & -> & -> & Hne & _ & Hkeep & _).
  split; [done|]. split.
  - by apply (rows_to_keep_spec _ _ _ _ Hkeep).
  - split; [done|]. by exists headers, records, written.
Qed.

Lemma remove_token_from_csv_removes_witness :
  remove_token_from_csv (Some "MINT") example_queue
  = (Some [queue_header; ["A1"; "first"; "10"]; ["A3"; "third"; "65"]], true)
  /\ queue_addresses example_queue = ["A1"; "MINT"; "A3"]
  /\ queue_addresses
       (Some [queue_header; ["A1"; "first"; "10"]; ["A3"; "third"; "65"]])
     = filter (fun address => address ≠ "MINT") (queue_addresses example_queue).
Proof.
  split; [reflexivity|]. split; [reflexivity|].
  exact (proj1 (proj2 (proj2
    (remove_token_from_csv_removes "MINT" example_queue
       (Some [queue_header; ["A1"; "first"; "10"]; ["A3"; "third"; "65"]])
       eq_refl)))).
Defined.

(** Without an address, or with one that no row carries, the removal
    returns [False] and leaves the file as it is. *)
Theorem remove_token_from_csv_absent mint file :
  mint = None \/ mint = Some ""
  \/ (∃ address, mint = Some address /\ address ∉ queue_addresses file) ->
  remove_token_from_csv mint file = (file, false).
Proof.
  intros [->|[->|(address & -> & Hn)]]; [done|by destruct file|].
  unfold remove_token_from_csv.
  destruct address as [|a address]; [by destruct file|].
  destruct file as [[|headers records]|]; [done| |done].
  repeat case_bool_decide; try done.
  pose proof (rows_to_keep_absent _ _ Hn) as Hk.
  by destruct (rows_to_keep _ _) as [e|[keep [|]]].
Qed.

Lemma remove_token_from_csv_absent_witness :
  ("A2" ∉ queue_addresses example_queue)
  /\ remove_token_from_csv (Some "A2") example_queue = (example_queue, false).
Proof.
  assert (Hn : "A2" ∉ queue_addresses example_queue).
  { vm_compute. intros H. repeat (apply elem_of_cons in H as [H|H]; [done|]).
    by apply elem_of_nil in H. }
  split; [exact Hn|].
  apply remove_token_from_csv_absent. right. right. by exists "A2".
Defined.

Lemma writerows_stops headers rows written :
  writerows headers rows = (written, false) ->
  length written < length rows
  /\ ∃ row, row ∈ rows /\ is_Some (restkey row).
Proof.
  revert written. induction rows as [|row rows IH]; intros written; simpl; [done|].
  unfold dict_to_list.
  destruct (restkey row) as [extra|] eqn:Hrest.
  - intros [= <-]. simpl. split; [lia|]. exists row. split; [left|by eexists].
  - destruct (writerows headers rows) as [written' ok] eqn:Hw.
    intros [= <- ->]. destruct (IH _ eq_refl) as [Hlen (row' & Hin & Hex)].
    simpl. split; [lia|]. exists row'. split; [by right|done].
Qed.

(** The removal fails in two ways.  Either it returns [False] with the
    file untouched; or it has already begun to rewrite the file when it
    meets a row to keep that has more fields than the header, and then
    the file is left with the header and fewer rows than were to be
    kept. *)
Theorem remove_token_from_csv_failure mint headers records file' :
  remove_token_from_csv (Some mint) (Some (headers :: records)) = (file', false) ->
  file' = Some (headers :: records)
  \/ ∃ written row,
       file' = Some (headers :: written)
       /\ length written
          < length (filter (fun row => row_address row ≠ mint)
                      (dict_rows headers records))
       /\ row ∈ dict_rows headers records
       /\ row_address row ≠ mint
       /\ is_Some (restkey row).
Proof.
  unfold remove_token_from_csv.
  destruct mint as [|a mint]; [intros [= <-]; by left|].
  repeat case_bool_decide; try (intros [= <-]; by left).
  destruct (rows_to_keep _ _) as [e|[keep [|]]] eqn:Hkeep;
    try (intros [= <-]; by left).
  destruct (writerows headers keep) as [written ok] eqn:Hw.
  intros [= <- ->]. right.
  destruct (rows_to_keep_spec _ _ _ _ Hkeep) as [-> _].
  destruct (writerows_stops _ _ _ Hw) as [Hlen (row & Hin & Hex)].
  apply list_elem_of_filter in Hin as [Hne Hin].
  by exists written, row.
Qed.

Lemma remove_token_from_csv_failure_witness :
  let queue := Some [queue_header; ["A1"; "first"; "10"; "surplus"];
                     ["A2"; "second"; "20"]; ["MINT"; ""; "64"]] in
  remove_token_from_csv (Some "MINT") queue = (Some [queue_header], false)
  /\ (Some [queue_header] = queue
      \/ ∃ written row,
           Some [queue_header] = Some (queue_header :: written)
           /\ length written
              < length (filter (fun row => row_address row ≠ "MINT")
                          (dict_rows queue_header
                             [["A1"; "first"; "10"; "surplus"];
                              ["A2"; "second"; "20"]; ["MINT"; ""; "64"]]))
           /\ row ∈ dict_rows queue_header
                      [["A1"; "first"; "10"; "surplus"];
                       ["A2"; "second"; "20"]; ["MINT"; ""; "64"]]
           /\ row_address row ≠ "MINT"
           /\ is_Some (restkey row)).
Proof.
  split; [reflexivity|].
  exact (remove_token_from_csv_failure "MINT" queue_header
    [["A1"; "first"; "10"; "surplus"]; ["A2"; "second"; "20"]; ["MINT"; ""; "64"]]
    (Some [queue_header]) eq_refl).
Defined.

(** ** Reading after writing *)

Lemma load_row_target py_float row latest t :
  load_row py_float row latest = inr (Some t) ->
  Some t = latest \/ (eligible py_float row = true /\ t = target_of_row row).
Proof.
  unfold load_row, eligible, target_of_row, row_name, row_address,
    row_price_impact, row_get, value_strip, mbind, csv_error_bind.
  destruct (fields row !! "Address") as [[a|]|]; simpl; [|done|];
  (destruct (fields row !! "Price_Impact_Cluster_Sell_Percent") as [[p|]|];
     simpl; [|done|destruct (fields row !! "Price_Impact_Cluster_Sell_Percent_")
               as [[p|]|]; simpl; [|done|]]);
  change (strip "") with "" in *;
  repeat case_bool_decide; simplify_eq/=;
  repeat match goal with
  | |- context [py_float ?s] => destruct (py_float s) as [v|]; simpl
  | |- context [?v <? PRICE_IMPACT_THRESHOLD_MONITOR] =>
      destruct (v <? PRICE_IMPACT_THRESHOLD_MONITOR) eqn:?; simpl
  end; intros; simplify_eq/=; auto;
  destruct (fields row !! "Name") as [[n|]|]; simplify_eq/=;
  change (strip "") with "" in *;
  repeat case_bool_decide; simplify_eq/=; auto.
Qed.

Lemma load_rows_target py_float rows latest t :
  load_rows py_float rows latest = inr (Some t) ->
  Some t = latest
  \/ ∃ row, row ∈ rows /\ eligible py_float row = true /\ t = target_of_row row.
Proof.
  revert latest. induction rows as [|row rows IH]; intros latest; simpl.
  - intros [= <-]. by left.
  - unfold mbind, csv_error_bind.
    destruct (load_row py_float row latest) as [e|latest'] eqn:Hrow; [done|].
    intros Hrest. destruct (IH _ Hrest) as [<-|(row' & Hin & Hel)].
    + destruct (load_row_target _ _ _ _ Hrow) as [?|[? ?]]; [by left|].
      right. exists row. split; [left|done].
    + right. exists row'. split; [by right|done].
Qed.

Lemma load_result py_float file address name :
  load_token_from_csv py_float file = Some (address, name) ->
  ∃ fieldnames records row,
    file = Some (fieldnames :: records)
    /\ row ∈ dict_rows fieldnames records
    /\ eligible py_float row = true
    /\ (address, name) = target_of_row row.
Proof.
  unfold load_token_from_csv.
  destruct file as [[|fieldnames records]|]; [done| |done].
  repeat case_bool_decide; try done.
  destruct (load_rows _ _ _) as [e|[t|]] eqn:Hload; [done| |done].
  intros [= ->].
  apply load_rows_target in Hload as [?|(row & Hin & Hel & Ht)]; [done|].
  by exists fieldnames, records, row.
Qed.

Lemma load_result_address py_float file address name :
  load_token_from_csv py_float file = Some (address, name) ->
  address ∈ queue_addresses file.
Proof.
  intros (fieldnames & records & row & -> & Hin & _ & Ht)%load_result.
  unfold target_of_row in Ht.
  assert (address = row_address row) as -> by (by simplify_eq).
  by apply list_elem_of_fmap_2.
Qed.

(** What the loader returns is usable as it is: the address is one of the
    addresses in the file, it and the name are not empty, and both are
    already stripped. *)
Theorem load_token_from_csv_result py_float file address name :
  load_token_from_csv py_float file = Some (address, name) ->
  address ∈ queue_addresses file
  /\ address ≠ "" /\ name ≠ ""
  /\ strip address = address /\ strip name = name.
Proof.
  intros Hload. split; [by eapply load_result_address|].
  destruct (load_result _ _ _ _ Hload)
    as (fieldnames & records & row & _ & _ & Hel & Ht).
  unfold target_of_row in Ht. unfold eligible in Hel.
  apply andb_prop in Hel as [Ha%bool_decide_eq_true _].
  assert (address = row_address row) as -> by (by simplify_eq).
  assert (Hname : name = row_name row \/ name = row_address row).
  { case_bool_decide; simplify_eq; auto. }
  assert (Hne : name ≠ "").
  { case_bool_decide; by simplify_eq. }
  split; [done|]. split; [done|].
  split; [apply strip_idempotent|].
  destruct Hname as [->| ->]; apply strip_idempotent.
Qed.

Lemma load_token_from_csv_result_witness :
  load_token_from_csv float_of_digits example_queue = Some ("MINT", "MINT")
  /\ "MINT" ∈ queue_addresses example_queue
  /\ strip "MINT" = "MINT".
Proof.
  split; [reflexivity|].
  destruct (load_token_from_csv_result float_of_digits example_queue
              "MINT" "MINT" eq_refl) as (Hin & _ & _ & Hs & _).
  split; [exact Hin|exact Hs].
Defined.

(** A removed target is not picked again: after a successful removal of
    an address the loader returns another address or nothing, whatever
    the parser. *)
Theorem removed_target_not_loaded py_float mint file file' :
  remove_token_from_csv (Some mint) file = (file', true) ->
  ∀ name, load_token_from_csv py_float file' ≠ Some (mint, name).
Proof.
  intros Hrm name Hload.
  pose proof (remove_success_addresses _ _ _ Hrm) as Haddr.
  apply load_result_address in Hload as Hin.
  rewrite Haddr in Hin. by apply list_elem_of_filter in Hin as [? _].
Qed.

Lemma removed_target_not_loaded_witness :
  remove_token_from_csv (Some "MINT") example_queue
  = (Some [queue_header; ["A1"; "first"; "10"]; ["A3"; "third"; "65"]], true)
  /\ load_token_from_csv float_of_digits
       (Some [queue_header; ["A1"; "first"; "10"]; ["A3"; "third"; "65"]])
     = Some ("A1", "first")
  /\ ∀ name, load_token_from_csv float_of_digits
               (Some [queue_header; ["A1"; "first"; "10"]; ["A3"; "third"; "65"]])
             ≠ Some ("MINT", name).
Proof.
  split; [reflexivity|]. split; [reflexivity|].
  exact (removed_target_not_loaded float_of_digits "MINT" example_queue
    (Some [queue_header; ["A1"; "first"; "10"]; ["A3"; "third"; "65"]]) eq_refl).
Defined.

(** The queue checker notices a removal: when the row of the monitored
    token has been removed from the queue, the next wake-up of the
    checker started for that token asks for a restart, whether the queue
    now selects another token or none. *)
Theorem checker_restarts_after_removal py_float mint file file' :
  remove_token_from_csv (Some mint) file = (file', true) ->
  periodic_csv_checker_pass py_float (Some mint) (Some mint) file'
  = CheckerRestartRequired.
Proof.
  intros Hrm. unfold periodic_csv_checker_pass.
  rewrite bool_decide_false by (intros Hn; by apply Hn).
  destruct (load_token_from_csv py_float file') as [[address name]|] eqn:Hload.
  - pose proof (remove_success_addresses _ _ _ Hrm) as Haddr.
    apply load_result_address in Hload as Hin.
    rewrite Haddr in Hin. apply list_elem_of_filter in Hin as [Hne _].
    rewrite bool_decide_true; [done|]. by intros [= ->].
  - by rewrite bool_decide_true.
Qed.

Lemma checker_restarts_after_removal_witness :
  remove_token_from_csv (Some "MINT") example_queue
  = (Some [queue_header; ["A1"; "first"; "10"]; ["A3"; "third"; "65"]], true)
  /\ periodic_csv_checker_pass float_of_digits (Some "MINT") (Some "MINT")
       example_queue = CheckerSleeps
  /\ periodic_csv_checker_pass float_of_digits (Some "MINT") (Some "MINT")
       (Some [queue_header; ["A1"; "first"; "10"]; ["A3"; "third"; "65"]])
     = CheckerRestartRequired.
Proof.
  split; [reflexivity|]. split; [reflexivity|].
  exact (checker_restarts_after_removal float_of_digits "MINT" example_queue
    (Some [queue_header; ["A1"; "first"; "10"]; ["A3"; "third"; "65"]]) eq_refl).
Defined.

(** ** Taking and releasing the process lock *)

Lemma create_exclusive_taken pid r file file' :
  create_exclusive pid r file = (true, file') ->
  file = None
  /\ file' = Some (str_of_pid pid +:+ String "010"%char (stamp r)).
Proof.
  unfold create_exclusive. destruct file; [done|].
  destruct (creation r); by intros [= <-].
Qed.

Lemma create_exclusive_held pid r content :
  create_exclusive pid r (Some content) = (false, Some content).
Proof. done. Qed.

Lemma acquire_loop_taken pid blocking timeout start_time rounds file file' :
  acquire_loop pid blocking timeout start_time rounds file = Some (true, file') ->
  ∃ r, r ∈ rounds
       /\ file' = Some (str_of_pid pid +:+ String "010"%char (stamp r)).
Proof.
  revert file. induction rounds as [|r rounds IH]; intros file; simpl; [done|].
  destruct (create_exclusive pid r (default file (interference r)))
    as [[|] f] eqn:Hc.
  - intros [= <-]. apply create_exclusive_taken in Hc as [_ ->].
    exists r. split; [left|done].
  - destruct (negb blocking); [done|]. destruct (geb _ _); [done|].
    intros (r' & Hin & ->)%IH. exists r'. split; [by right|done].
Qed.

Lemma acquire_loop_held pid blocking timeout start_time rounds content ok file' :
  Forall (fun r => interference r = None) rounds ->
  acquire_loop pid blocking timeout start_time rounds (Some content)
  = Some (ok, file') ->
  ok = false /\ file' = Some content.
Proof.
  induction 1 as [|r rounds Hr _ IH]; simpl; [done|].
  rewrite Hr. simpl.
  destruct (negb blocking); [by intros [= <- <-]|].
  destruct (geb _ _); [by intros [= <- <-]|]. done.
Qed.

Lemma own_line pid stamp :
  strip (readline (str_of_pid pid +:+ String "010"%char stamp)) = str_of_pid pid.
Proof.
  rewrite readline_digits by apply str_of_pid_digits.
  apply strip_line, str_of_pid_digits.
Qed.

(** Acquire and release are a round trip, and the lock is exclusive to
    the process that took it.  When [acquire] on a fresh object returns
    [True], the file exists and the object holds the lock; [release] by
    the same process then removes the file and clears the flag; and
    [release] run by any other process, whatever its object believes,
    leaves the file as it is. *)
Theorem acquire_release_round_trip pid blocking timeout start_time rounds
    file self' file' :
  acquire pid blocking timeout start_time rounds {| lock_acquired := false |} file
  = Some (self', true, file') ->
  lock_acquired self' = true
  /\ is_locked file' = true
  /\ release pid true true self' file' = ({| lock_acquired := false |}, None)
  /\ ∀ other read_ok remove_ok holder,
       other ≠ pid -> (release other read_ok remove_ok holder file').2 = file'.
Proof.
  unfold acquire. simpl.
  destruct (acquire_loop _ _ _ _ _ _) as [[[|] f]|] eqn:Hloop; [|done|done].
  intros [= <- <-].
  apply acquire_loop_taken in Hloop as (r & _ & ->).
  split; [done|]. split; [done|]. split.
  - unfold release. simpl. by rewrite own_line, bool_decide_true.
  - intros other read_ok remove_ok holder Hne. unfold release.
    destruct (lock_acquired holder); [|done]. simpl.
    destruct read_ok; [|done]. rewrite own_line.
    rewrite bool_decide_false; [done|].
    by intros ?%str_of_pid_inj.
Qed.

Lemma acquire_release_round_trip_witness :
  let r := {| interference := None; creation := WriteDone;
              stamp := "1700000000.5"; clock := 0 |} in
  acquire 4242 true 30 0 [r] {| lock_acquired := false |} None
  = Some ({| lock_acquired := true |}, true,
          Some (String.append "4242" (String "010"%char "1700000000.5")))
  /\ release 4242 true true {| lock_acquired := true |}
       (Some (String.append "4242" (String "010"%char "1700000000.5")))
     = ({| lock_acquired := false |}, None).
Proof.
  split; [reflexivity|].
  exact (proj1 (proj2 (proj2
    (acquire_release_round_trip 4242 true 30 0
       [{| interference := None; creation := WriteDone;
           stamp := "1700000000.5"; clock := 0 |}]
       None {| lock_acquired := true |}
       (Some (String.append "4242" (String "010"%char "1700000000.5")))
       eq_refl)))).
Defined.

(** While the lock file is there and nobody touches it, [acquire] on an
    object that does not hold the lock never succeeds and never writes:
    whenever it returns, it returns [False], and the file and the object
    are as before. *)
Theorem acquire_respects_holder pid blocking timeout start_time rounds
    self content self' ok file' :
  lock_acquired self = false ->
  Forall (fun r => interference r = None) rounds ->
  acquire pid blocking timeout start_time rounds self (Some content)
  = Some (self', ok, file') ->
  ok = false /\ file' = Some content /\ self' = self.
Proof.
  intros Hself Hrounds. unfold acquire. rewrite Hself.
  destruct (acquire_loop _ _ _ _ _ _) as [[b f]|] eqn:Hloop; [|done].
  destruct (acquire_loop_held _ _ _ _ _ _ _ _ Hrounds Hloop) as [-> ->].
  by intros [= <- <- <-].
Qed.

Lemma acquire_respects_holder_witness :
  let r := {| interference := None; creation := WriteDone;
              stamp := "1700000000.5"; clock := 31 |} in
  lock_acquired {| lock_acquired := false |} = false
  /\ Forall (fun r => interference r = None) [r]
  /\ acquire 4242 true 30 0 [r] {| lock_acquired := false |} (Some "17")
     = Some ({| lock_acquired := false |}, false, Some "17")
  /\ (false = false /\ Some "17" = Some "17"
      /\ {| lock_acquired := false |} = {| lock_acquired := false |}).
Proof.
  assert (H : Forall (fun r => interference r = None)
                [{| interference := None; creation := WriteDone;
                    stamp := "1700000000.5"; clock := 31 |}]).
  { constructor; [reflexivity|constructor]. }
  split; [reflexivity|]. split; [exact H|]. split; [reflexivity|].
  exact (acquire_respects_holder 4242 true 30 0
    [{| interference := None; creation := WriteDone;
        stamp := "1700000000.5"; clock := 31 |}]
    {| lock_acquired := false |} "17" {| lock_acquired := false |} false
    (Some "17") eq_refl H eq_refl).
Defined.

Lemma acquire_loop_waits pid timeout start_time waiting rounds content :
  Forall (fun r => interference r = None
                   /\ geb (clock r - start_time) timeout = false) waiting ->
  acquire_loop pid true timeout start_time (waiting ++ rounds) (Some content)
  = acquire_loop pid true timeout start_time rounds (Some content).
Proof.
  induction 1 as [|r waiting [Hr Hc] _ IH]; simpl; [done|].
  by rewrite Hr, Hc.
Qed.

(** [acquire] gives up on a lock that stays held.  Without blocking it
    returns [False] at its first attempt.  With blocking it keeps trying
    while the time since it started is below the timeout and returns
    [False] at the first attempt after which the timeout has run out.
    In both cases the file and the object are as before. *)
Theorem acquire_gives_up pid blocking timeout start_time waiting r rest
    self content :
  lock_acquired self = false ->
  interference r = None ->
  (blocking = true ->
   Forall (fun w => interference w = None
                    /\ geb (clock w - start_time) timeout = false) waiting
   /\ geb (clock r - start_time) timeout = true) ->
  (blocking = false -> waiting = []) ->
  acquire pid blocking timeout start_time (waiting ++ r :: rest) self
    (Some content)
  = Some (self, false, Some content).
Proof.
  intros Hself Hr Hblocking Hnot. unfold acquire. rewrite Hself.
  destruct blocking.
  - destruct (Hblocking eq_refl) as [Hwait Hout].
    rewrite (acquire_loop_waits _ _ _ _ _ _ Hwait). simpl.
    by rewrite Hr, Hout.
  - rewrite (Hnot eq_refl). simpl. by rewrite Hr.
Qed.

Lemma acquire_gives_up_witness :
  let w := {| interference := None; creation := WriteDone;
              stamp := "1700000010.0"; clock := 1010 |} in
  let r := {| interference := None; creation := WriteDone;
              stamp := "1700000030.1"; clock := 1030 |} in
  (Forall (fun w => interference w = None
                    /\ geb (clock w - 1000) 30 = false) [w]
   /\ geb (clock r - 1000) 30 = true)
  /\ acquire 4242 true 30 1000 ([w] ++ r :: []) {| lock_acquired := false |}
       (Some "17")
     = Some ({| lock_acquired := false |}, false, Some "17").
Proof.
  assert (H : Forall (fun w => interference w = None
                               /\ geb (clock w - 1000) 30 = false)
                [{| interference := None; creation := WriteDone;
                    stamp := "1700000010.0"; clock := 1010 |}]
              /\ geb (clock {| interference := None; creation := WriteDone;
                               stamp := "1700000030.1"; clock := 1030 |} - 1000)
                     30 = true).
  { split; [|reflexivity].
    constructor; [split; reflexivity|constructor]. }
  split; [exact H|].
  refine (acquire_gives_up 4242 true 30 1000
            [{| interference := None; creation := WriteDone;
                stamp := "1700000010.0"; clock := 1010 |}]
            {| interference := None; creation := WriteDone;
               stamp := "1700000030.1"; clock := 1030 |}
            [] {| lock_acquired := false |}
            "17" eq_refl eq_refl (fun _ => H) _).
  discriminate.
Defined.

(** ** The lock file of the monitor *)

(** The monitor's own lock is one its removal recognises.  Once [main]
    has written the file, whatever was there before, even the lock of
    another process, its removal (no token, or exit) deletes it; when
    the file is gone the re-assertion writes it again so that the
    removal deletes it once more; and the re-assertion never writes over
    a file that is there.  When the first write fails the flag stays
    off, and neither the removal nor the re-assertion touches the file
    afterwards. *)
Theorem main_lock_round_trip pid io file :
  main_remove_lock pid true true true (main_create_lock pid WriteDone file).2
  = None
  /\ main_remove_lock pid true true true
       (main_reassert_lock pid WriteDone true None) = None
  /\ (∀ created content,
        main_reassert_lock pid io created (Some content) = Some content)
  /\ ((main_create_lock pid io file).1 = false ->
      ∀ read_ok remove_ok io',
        let left_behind := (main_create_lock pid io file).2 in
        main_remove_lock pid read_ok remove_ok false left_behind = left_behind
        /\ main_reassert_lock pid io' false left_behind = left_behind).
Proof.
  assert (Hown : main_remove_lock pid true true true (Some (str_of_pid pid))
                 = None).
  { unfold main_remove_lock.
    rewrite (strip_digits _ (str_of_pid_digits pid)).
    by rewrite bool_decide_true. }
  split; [exact Hown|]. split; [exact Hown|]. split.
  - intros created content. unfold main_reassert_lock.
    by rewrite andb_false_r.
  - done.
Qed.

(** ** Monitoring without a price *)

Lemma price_determination_no_price cfg now dex g :
  last (g_latest_trade_data g) = None ->
  dex_price dex = None ->
  ∃ g1, price_determination cfg now dex g = (Normal None, g1)
        /\ (g1 = g \/ g1 = set_last_dex_price_fetch_time now g).
Proof.
  intros Hlast Hdex. pose proof (price_from_recent_trade_cases g) as Hc.
  rewrite Hlast in Hc.
  unfold price_determination. unfold mbind, M_bind, get, modify, mret, M_ret.
  rewrite Hc. simpl. destruct (gtb _ _).
  - rewrite Hdex. eexists. split; [done|by right].
  - eexists. split; [done|by left].
Qed.

(** A token for which no price is ever obtained is monitored without
    end: with an empty trade buffer, no trades arriving and no price from
    Dexscreener, the decision loop neither returns nor raises, however
    many passes it makes and however late they are; no timeout applies,
    and the baseline stays unset. *)
Theorem monitoring_without_price_never_ends cfg mint inputs g :
  g_current_mint_address g = Some mint ->
  g_baseline_price_usd g = None ->
  g_latest_trade_data g = [] ->
  Forall (fun i => new_trades i = [] /\ dex_price (dex_answer i) = None) inputs ->
  let r := trade_logic_and_price_display_loop cfg mint inputs g in
  r.1 = Normal Continue
  /\ g_baseline_price_usd r.2 = None
  /\ g_buy_signal_detected r.2 = g_buy_signal_detected g.
Proof.
  intros Hmint Hbase Hdata Hinputs. revert g Hmint Hbase Hdata.
  induction Hinputs as [|i inputs [Htrades Hdex] _ IH]; intros g Hmint Hbase Hdata;
    [done|].
  cbv zeta. rewrite decision_loop_cons.
  set (g0 := set_feed (new_trades i) (new_sol_price i) g).
  assert (Hmint0 : g_current_mint_address g0 = Some mint) by done.
  assert (Hbase0 : g_baseline_price_usd g0 = None) by done.
  assert (Hdata0 : g_latest_trade_data g0 = []).
  { subst g0. simpl. by rewrite Htrades, Hdata. }
  assert (Hsig0 : g_buy_signal_detected g0 = g_buy_signal_detected g) by done.
  destruct (trade_logic_iteration_cases cfg mint i g0)
    as [[Hne _]|(usd & g1 & Hg1 & Hp & ->)]; [done|].
  destruct (price_determination_no_price cfg (current_time i) (dex_answer i) g0)
    as (g1' & Hp' & _); [by rewrite Hdata0|done|].
  rewrite Hp' in Hp. simplify_eq.
  assert (Hbase1 : g_baseline_price_usd g1 = None)
    by (by destruct Hg1 as [->| ->]).
  rewrite (evaluate_waits_for_price _ _ _ _ Hbase1).
  rewrite <-Hsig0.
  assert (Hsig1 : g_buy_signal_detected g1 = g_buy_signal_detected g0)
    by (by destruct Hg1 as [->| ->]).
  rewrite <-Hsig1.
  apply IH; by destruct Hg1 as [->| ->].
Qed.

Lemma monitoring_without_price_never_ends_witness :
  let late := {| current_time := 999999; new_trades := [];
                 new_sol_price := None; dex_answer := None |} in
  Forall (fun i => new_trades i = [] /\ dex_price (dex_answer i) = None)
    [late; late]
  /\ (trade_logic_and_price_display_loop standard_config "MINT" [late; late]
        example_epoch).1 = Normal Continue.
Proof.
  assert (H : Forall (fun i => new_trades i = []
                               /\ dex_price (dex_answer i) = None)
                [{| current_time := 999999; new_trades := [];
                    new_sol_price := None; dex_answer := None |};
                 {| current_time := 999999; new_trades := [];
                    new_sol_price := None; dex_answer := None |}]).
  { repeat constructor. }
  split; [exact H|].
  exact (proj1 (monitoring_without_price_never_ends standard_config "MINT" _
                  example_epoch eq_refl eq_refl eq_refl H)).
Defined.

(** ** The results of the tasks *)

(** The loop of [main] over the results acts on the first result that is
    neither a plain return, a cancellation nor a [SystemExit], and on
    nothing after it: a completion that follows a restart request or an
    error of another task removes no row.  When there is no such result
    there is no outcome and the queue is untouched. *)
Theorem handle_results_first_decisive results processed queue :
  match filter (fun r => passed_over r = false) results with
  | [] => handle_results results processed queue = (None, queue)
  | r :: _ =>
      handle_results results processed queue
      = handle_results [r] processed queue
      /\ is_Some (handle_results results processed queue).1
  end.
Proof.
  induction results as [|r results IH]; [done|].
  rewrite filter_cons. destruct r; simpl; try done.
  all: case_decide; try done.
  all: by repeat split.
Qed.

(** ** Whale traps *)

Lemma change_pct_total v1 v2 : is_Some (change_pct v1 v2).
Proof.
  unfold change_pct, float_div. destruct (gtb v1 0) eqn:Hpos; [|by eexists].
  rewrite (positive_not_zero _ Hpos). by eexists.
Qed.

Lemma change_pct_no_base v1 v2 : gtb v1 0 = false -> change_pct v1 v2 = Some 0.
Proof. unfold change_pct. by intros ->. Qed.

(** The whale-trap test never fails: each percentage divides only by a
    first value above zero.  And a token whose first snapshot has no
    price above zero, or no liquidity above zero (as the all-zero
    snapshot of missing market data), is not flagged whenever the
    corresponding threshold is not below zero, as the defaults 0.0 are. *)
Theorem whale_trap_avoidance_total price_up liquidity_up volume_down
    first_snap second_snap :
  is_Some (whale_trap_avoidance price_up liquidity_up volume_down
             first_snap second_snap)
  /\ ((gtb first_snap.1.1 0 = false /\ gtb 0 price_up = false)
      \/ (gtb first_snap.1.2 0 = false /\ gtb 0 liquidity_up = false) ->
      whale_trap_avoidance price_up liquidity_up volume_down
        first_snap second_snap = Some false).
Proof.
  destruct first_snap as [[price1 liquidity1] volume1].
  destruct second_snap as [[price2 liquidity2] volume2].
  unfold whale_trap_avoidance. simpl.
  destruct (change_pct_total price1 price2) as [p Hp].
  destruct (change_pct_total volume1 volume2) as [v Hv].
  destruct (change_pct_total liquidity1 liquidity2) as [l Hl].
  rewrite Hp, Hv, Hl. simpl. split; [by eexists|].
  intros [[Hbase Hup]|[Hbase Hup]].
  - rewrite (change_pct_no_base _ price2 Hbase) in Hp. simplify_eq.
    by rewrite Hup.
  - rewrite (change_pct_no_base _ liquidity2 Hbase) in Hl. simplify_eq.
    rewrite Hup. by rewrite andb_false_r.
Qed.
